(** * rattle - Rate And Time To Limit Estimate

    A shallow embedding of [RattleSup/Rattle.c]: the per-record sample
    store with decimation ([RecordData]), the least-squares estimator
    [slopeIntersect], and the two aSub record entry points [RattleInit]
    and [RattleProcess].

    The C code computes on [epicsFloat64] and [epicsTimeStamp].  The
    embedding takes both through the interface [Host], which lists exactly
    the operations the C text applies to them, and runs it at IEEE binary64
    (Rocq's primitive floats), which is what the compiled code computes.
    Where a property is about the number a binary64 value stands for, it
    is stated through [exactValue], the rational that a finite binary64
    number denotes. *)

From Stdlib Require Import ZArith List Bool Lia QArith Qfield Lqa Floats.
From Stdlib Require String.
Import String.StringSyntax.
Delimit Scope string_scope with string.
Import ListNotations.
Open Scope Z_scope.

(** ** The host interface *)

(** [F] is [epicsFloat64], [T] is [epicsTimeStamp].  [epicsTimeDiffInSeconds]
    and [epicsSevInvalid] come from EPICS base (epicsTime.h, alarm.h), which
    is not part of this repository; they are parameters of the model. *)
Class Host (F T : Type) := {
  fzero : F;                                (* 0.0 *)
  fone : F;                                 (* 1.0 *)
  fadd : F -> F -> F;
  fsub : F -> F -> F;
  fmul : F -> F -> F;
  fdiv : F -> F -> F;
  ofInt : Z -> F;                           (* int -> double conversion *)
  fleb : F -> F -> bool;                    (* x <= y *)
  isnan : F -> bool;
  isinf : F -> bool;
  tzero : T;                                (* an all-zero epicsTimeStamp *)
  epicsTimeDiffInSeconds : T -> T -> F;     (* left - right, in seconds *)
  epicsSevInvalid : Z
}.

(** [menuFtype], the field-type tags of an aSub record. *)
Inductive menuFtype : Set :=
| menuFtypeSTRING | menuFtypeCHAR | menuFtypeUCHAR | menuFtypeSHORT
| menuFtypeUSHORT | menuFtypeLONG | menuFtypeULONG | menuFtypeINT64
| menuFtypeUINT64 | menuFtypeFLOAT | menuFtypeDOUBLE | menuFtypeENUM.

Definition isLONG (t : menuFtype) : bool :=
  match t with menuFtypeLONG => true | _ => false end.

Definition isDOUBLE (t : menuFtype) : bool :=
  match t with menuFtypeDOUBLE => true | _ => false end.

(** The integer macros of the source. *)
Definition MAX (a b : Z) : Z := if a >=? b then a else b.
Definition MIN (a b : Z) : Z := if a <=? b then a else b.
Definition LIMIT (x low high : Z) : Z := MAX low (MIN x high).
Definition ZERO2ONE_int (x : Z) : Z := if x <=? 0 then 1 else x.

(** [for (i = firstSlot; i <= lastSlot; i++)]: the indices visited, in order. *)
Definition slots (firstSlot lastSlot : Z) : list Z :=
  map (fun k => firstSlot + Z.of_nat k)
      (seq 0 (Z.to_nat (lastSlot + 1 - firstSlot))).

(** The field types of the record: [prec->fta] ... [prec->ftvc]. *)
Record FieldTypes : Set := {
  fta : menuFtype; ftb : menuFtype; ftc : menuFtype; ftd : menuFtype;
  fte : menuFtype; ftf : menuFtype; ftg : menuFtype; fth : menuFtype;
  fti : menuFtype; ftj : menuFtype; ftl : menuFtype; ftm : menuFtype;
  ftr : menuFtype; fts : menuFtype; ftt : menuFtype;
  ftva : menuFtype; ftvb : menuFtype; ftvc : menuFtype
}.

Section Model.

Context {F T : Type} `{HostFT : Host F T}.

(** ** Data *)

Record Sample : Type := {
  time : T;
  value : F
}.

(** [buffer] is a C pointer: it is modelled by what [buffer[i]] reads at
    every offset [i].  Offsets [0 .. maximumSamples - 1] are the allocated
    array; any other offset is memory that does not belong to the array.

    The [int] fields are integers of [Z].  [maximumSamples] is at most
    32768, [sampleCount] stays between 0 and [maximumSamples], and
    [decimateCount] is incremented only while below an [epicsInt32], so no
    operation on them leaves the range of [int]. *)
Record RecordData : Type := {
  buffer : Z -> Sample;
  sampleCount : Z;
  maximumSamples : Z;
  decimateCount : Z;
  decimateTotal : F
}.

(** The input fields, as the field access macros read them:
    [fld_a] is [DOUBLE_FIELD (a)], [fld_b] is [LONG_FIELD (b)], ... *)
Record Fields : Type := {
  fld_a : F;
  fld_b : Z; fld_c : F;
  fld_d : Z; fld_e : F;
  fld_f : Z; fld_g : F;
  fld_h : Z; fld_i : F;
  fld_j : Z;
  fld_l : Z;
  fld_m : Z;
  fld_r : Z;
  fld_s : F;
  fld_t : F
}.

(** The output fields VALA .. VALI. *)
Record Outputs : Type := {
  vala : Z;
  valb : F; valc : F;
  vald : F; vale : F;
  valf : F; valg : F;
  valh : F; vali : F
}.

(** The part of [aSubRecord] that the two entry points touch. *)
Record aSubRecord : Type := {
  ft : FieldTypes;
  fld : Fields;
  pact : Z;
  dpvt : option RecordData;
  val : Outputs
}.

(** ** Macros on doubles and fields *)

Definition ZERO2ONE (x : F) : F := if fleb x fzero then fone else x.

Definition DOUBLE_VALUE (t : menuFtype) (field d : F) : F :=
  if isDOUBLE t then field else d.

Definition LONG_VALUE (t : menuFtype) (field d : Z) : Z :=
  if isLONG t then field else d.

Definition isNanOrInfinite (x : F) : bool := isnan x || isinf x.

(** ** slopeIntersect *)

(** A computation that reads the buffer: the list of offsets it read, in
    program order, and its result. *)
Definition Reads (A : Type) : Type := (list Z * A)%type.

Definition ret {A} (a : A) : Reads A := ([], a).

Definition bind {A B} (m : Reads A) (k : A -> Reads B) : Reads B :=
  let (l1, a) := m in let (l2, b) := k a in (l1 ++ l2, b).

Definition readBuffer (pData : RecordData) (i : Z) : Reads Sample :=
  ([i], buffer pData i).

Notation "x <- m ;; k" := (bind m (fun x => k))
  (at level 61, m at next level, right associativity).

(** The five accumulators of the summation loop. *)
Record Sums : Type := {
  x_sum : F;
  y_sum : F;
  xx_sum : F;
  xy_sum : F;
  actual_size : Z
}.

Definition accumulate (acc : Sums) (x y : F) : Sums :=
  {| x_sum := fadd (x_sum acc) x;
     y_sum := fadd (y_sum acc) y;
     xx_sum := fadd (xx_sum acc) (fmul x x);
     xy_sum := fadd (xy_sum acc) (fmul x y);
     actual_size := actual_size acc + 1 |}.

(** One iteration of the loop at index [i]. *)
Definition loopBody (pData : RecordData) (t0 : T) (acc : Sums) (i : Z)
  : Reads Sums :=
  sx <- readBuffer pData i ;;
  sy <- readBuffer pData i ;;
  ret (accumulate acc (epicsTimeDiffInSeconds (time sx) t0) (value sy)).

Fixpoint loop (pData : RecordData) (t0 : T) (idx : list Z) (acc : Sums)
  : Reads Sums :=
  match idx with
  | [] => ret acc
  | i :: rest => acc' <- loopBody pData t0 acc i ;; loop pData t0 rest acc'
  end.

Definition zeroSums : Sums :=
  {| x_sum := fzero; y_sum := fzero; xx_sum := fzero; xy_sum := fzero;
     actual_size := 0 |}.

(** [slopeIntersect], returning [( *slope, *intersect )] together with the
    offsets of [pData->buffer] it read. *)
Definition slopeIntersectReads (pData : RecordData) (number : Z)
  : Reads (F * F) :=
  let firstSlot := sampleCount pData - number in
  let firstSlot := if firstSlot <? 0 then 0 else firstSlot in
  let lastSlot := sampleCount pData - 1 in
  if number <? 1 then ret (fzero, fzero)
  else if number <? 2 then
    s <- readBuffer pData lastSlot ;;
    ret (fzero, value s)
  else
    s0 <- readBuffer pData lastSlot ;;
    let t0 := time s0 in
    acc <- loop pData t0 (slots firstSlot lastSlot) zeroSums ;;
    let n := ofInt (actual_size acc) in
    let delta := fsub (fmul n (xx_sum acc)) (fmul (x_sum acc) (x_sum acc)) in
    ret (fdiv (fsub (fmul n (xy_sum acc)) (fmul (x_sum acc) (y_sum acc))) delta,
         fdiv (fsub (fmul (y_sum acc) (xx_sum acc))
                    (fmul (x_sum acc) (xy_sum acc))) delta).

Definition slopeIntersect (pData : RecordData) (number : Z) : F * F :=
  snd (slopeIntersectReads pData number).

Definition bufferReads (pData : RecordData) (number : Z) : list Z :=
  fst (slopeIntersectReads pData number).

(** ** RattleInit *)

Definition zeroSample : Sample := {| time := tzero; value := fzero |}.

(** [callocMustSucceed (number, sizeof (Sample), ...)]: [number] zeroed
    samples placed somewhere in [heap]; outside the new array the memory is
    whatever [heap] holds. *)
Definition callocBuffer (heap : Z -> Sample) (number : Z) : Z -> Sample :=
  fun i => if (0 <=? i) && (i <? number) then zeroSample else heap i.

(** The [CHECK_FIELD_TYPE] lines, in order. *)
Definition fieldTypesOk (t : FieldTypes) : bool :=
  isDOUBLE (fta t) && isLONG (ftb t) && isDOUBLE (ftc t)
  && isLONG (ftl t) && isLONG (ftj t) && isLONG (ftm t) && isLONG (ftr t)
  && isDOUBLE (fts t) && isDOUBLE (ftt t)
  && isLONG (ftva t) && isDOUBLE (ftvb t) && isDOUBLE (ftvc t).

Definition set_dpvt (prec : aSubRecord) (d : option RecordData) : aSubRecord :=
  {| ft := ft prec; fld := fld prec; pact := pact prec; dpvt := d;
     val := val prec |}.

Definition set_pact (prec : aSubRecord) (p : Z) : aSubRecord :=
  {| ft := ft prec; fld := fld prec; pact := p; dpvt := dpvt prec;
     val := val prec |}.

Definition initCapacity (prec : aSubRecord) : Z :=
  let n1 := LONG_VALUE (ftb (ft prec)) (fld_b (fld prec)) 0 in
  let n2 := LONG_VALUE (ftd (ft prec)) (fld_d (fld prec)) 0 in
  let n3 := LONG_VALUE (ftf (ft prec)) (fld_f (fld prec)) 0 in
  let n4 := LONG_VALUE (fth (ft prec)) (fld_h (fld prec)) 0 in
  let n5 := LONG_VALUE (ftm (ft prec)) (fld_m (fld prec)) 0 in
  let max := MAX (MAX (MAX n1 n2) (MAX n3 n4)) n5 in
  LIMIT max 10 32768.

(** A store as [RattleInit] leaves it (lines 297-308). *)
Definition freshData (heap : Z -> Sample) (number : Z) : RecordData :=
  {| buffer := callocBuffer heap number;
     sampleCount := 0;
     maximumSamples := number;
     decimateCount := 0;
     decimateTotal := fzero |}.

Definition RattleInit (heap : Z -> Sample) (prec : aSubRecord)
  : Z * aSubRecord :=
  let prec := set_dpvt prec None in
  if negb (fieldTypesOk (ft prec)) then (-1, set_pact prec 1)
  else (0, set_dpvt prec (Some (freshData heap (initCapacity prec)))).

(** ** RattleProcess *)

(** Lines 387-391. *)
Definition reset (pData : RecordData) : RecordData :=
  {| buffer := buffer pData;
     sampleCount := 0;
     maximumSamples := maximumSamples pData;
     decimateCount := 0;
     decimateTotal := fzero |}.

(** [memmove (&buffer[0], &buffer[1], (maximumSamples - 1) * sizeof (Sample))]. *)
Definition memmoveDown (buf : Z -> Sample) (maximumSamples : Z) : Z -> Sample :=
  fun i => if (0 <=? i) && (i <? maximumSamples - 1) then buf (i + 1) else buf i.

(** [buffer[k] = s]. *)
Definition store (buf : Z -> Sample) (k : Z) (s : Sample) : Z -> Sample :=
  fun i => if i =? k then s else buf i.

(** Lines 410-421: put a measurement into the buffer. *)
Definition insert (pData : RecordData) (measurement : Sample) : RecordData :=
  if sampleCount pData <? maximumSamples pData then
    {| buffer := store (buffer pData) (sampleCount pData) measurement;
       sampleCount := sampleCount pData + 1;
       maximumSamples := maximumSamples pData;
       decimateCount := decimateCount pData;
       decimateTotal := decimateTotal pData |}
  else
    {| buffer := store (memmoveDown (buffer pData) (maximumSamples pData))
                       (maximumSamples pData - 1) measurement;
       sampleCount := sampleCount pData;
       maximumSamples := maximumSamples pData;
       decimateCount := decimateCount pData;
       decimateTotal := decimateTotal pData |}.

(** Lines 393-396. *)
Definition decimate (pData : RecordData) (decimateFactor : Z) (v : F)
  : RecordData :=
  if decimateCount pData <? decimateFactor then
    {| buffer := buffer pData;
       sampleCount := sampleCount pData;
       maximumSamples := maximumSamples pData;
       decimateCount := decimateCount pData + 1;
       decimateTotal := fadd (decimateTotal pData) v |}
  else pData.

(** The measurement built at lines 402-405. *)
Definition measurementOf (pData : RecordData) (decimateFactor : Z)
    (now : T) (v : F) : Sample :=
  {| time := now;
     value := if decimateFactor =? 1 then v
              else fdiv (decimateTotal pData) (ofInt decimateFactor) |}.

(** Lines 407-408. *)
Definition clearDecimation (pData : RecordData) : RecordData :=
  {| buffer := buffer pData;
     sampleCount := sampleCount pData;
     maximumSamples := maximumSamples pData;
     decimateCount := 0;
     decimateTotal := fzero |}.

(** Lines 393-422: one raw sample taken into the store. *)
Definition ingest (pData : RecordData) (decimateFactor : Z) (now : T) (v : F)
  : RecordData :=
  let pData := decimate pData decimateFactor v in
  if decimateCount pData >=? decimateFactor then
    let measurement := measurementOf pData decimateFactor now v in
    insert (clearDecimation pData) measurement
  else pData.

(** The body of the loop over the four slots (lines 432-436):
    the scaled rate and the scaled time estimate. *)
Definition estimate (pData : RecordData) (number : Z) (threshold : F)
    (rateOfChangeFactor timeEstimateFactor : F) : F * F :=
  let (rate, intersect) := slopeIntersect pData number in
  let eta := fdiv (fsub threshold intersect) rate in
  (fmul rate rateOfChangeFactor, fdiv eta timeEstimateFactor).

(** [numberSamples[j]] and [thresholds[j]] for [j = 0 .. 3]. *)
Definition numberSamples (prec : aSubRecord) (maximumSamples : Z) (j : nat) : Z :=
  let t := ft prec in
  let v := fld prec in
  match j with
  | 0%nat => LIMIT (LONG_VALUE (ftb t) (fld_b v) 2) 2 maximumSamples
  | 1%nat => LIMIT (LONG_VALUE (ftd t) (fld_d v) 2) 2 maximumSamples
  | 2%nat => LIMIT (LONG_VALUE (ftf t) (fld_f v) 2) 2 maximumSamples
  | _ => LIMIT (LONG_VALUE (fth t) (fld_h v) 2) 2 maximumSamples
  end.

Definition thresholds (prec : aSubRecord) (j : nat) : F :=
  let t := ft prec in
  let v := fld prec in
  match j with
  | 0%nat => DOUBLE_VALUE (ftc t) (fld_c v) fzero
  | 1%nat => DOUBLE_VALUE (fte t) (fld_e v) fzero
  | 2%nat => DOUBLE_VALUE (ftg t) (fld_g v) fzero
  | _ => DOUBLE_VALUE (fti t) (fld_i v) fzero
  end.

Definition decimateFactorOf (prec : aSubRecord) : Z :=
  ZERO2ONE_int (LONG_VALUE (ftl (ft prec)) (fld_l (fld prec)) 1).

Definition rateOfChangeFactorOf (prec : aSubRecord) : F :=
  ZERO2ONE (DOUBLE_VALUE (fts (ft prec)) (fld_s (fld prec)) fone).

Definition timeEstimateFactorOf (prec : aSubRecord) : F :=
  ZERO2ONE (DOUBLE_VALUE (ftt (ft prec)) (fld_t (fld prec)) fone).

Definition severityOf (prec : aSubRecord) : Z :=
  LONG_VALUE (ftj (ft prec)) (fld_j (fld prec)) 0.

(** [RattleProcess].  [now] is the sample time the host hands over
    (dbGetTimeStamp on INPA or epicsTimeGetCurrent).  The result is the
    return status and the record afterwards. *)
Definition RattleProcess (now : T) (prec : aSubRecord) : Z * aSubRecord :=
  match dpvt prec with
  | None => (-1, prec)
  | Some pData =>
    let severity := severityOf prec in
    if severity >=? epicsSevInvalid then (0, prec)
    else
      let v := fld_a (fld prec) in
      if isNanOrInfinite v then (-1, prec)
      else
        let decimateFactor := decimateFactorOf prec in
        let doReset := fld_r (fld prec) =? 1 in
        let rateOfChangeFactor := rateOfChangeFactorOf prec in
        let timeEstimateFactor := timeEstimateFactorOf prec in
        let number := numberSamples prec (maximumSamples pData) in
        let pData := if doReset then reset pData else pData in
        let pData := ingest pData decimateFactor now v in
        let est j := estimate pData (number j)
                              (thresholds prec j)
                              rateOfChangeFactor timeEstimateFactor in
        (0, {| ft := ft prec; fld := fld prec; pact := pact prec;
               dpvt := Some pData;
               val := {| vala := sampleCount pData;
                         valb := fst (est 0%nat); valc := snd (est 0%nat);
                         vald := fst (est 1%nat); vale := snd (est 1%nat);
                         valf := fst (est 2%nat); valg := snd (est 2%nat);
                         valh := fst (est 3%nat); vali := snd (est 3%nat) |} |})
  end.

(** ** The host's scan cycles *)

(** The host writes the input fields, then calls [RattleProcess]. *)
Definition setFields (prec : aSubRecord) (v : Fields) : aSubRecord :=
  {| ft := ft prec; fld := v; pact := pact prec; dpvt := dpvt prec;
     val := val prec |}.

Definition cycle (prec : aSubRecord) (c : T * Fields) : aSubRecord :=
  snd (RattleProcess (fst c) (setFields prec (snd c))).

Definition run (prec : aSubRecord) (cycles : list (T * Fields)) : aSubRecord :=
  fold_left cycle cycles prec.

(** Raw samples taken in one after the other, with decimation factor [k]. *)
Definition feed (pData : RecordData) (k : Z) (samples : list (T * F))
  : RecordData :=
  fold_left (fun p s => ingest p k (fst s) (snd s)) samples pData.

(** Raw samples taken in with a decimation factor of their own each. *)
Definition feedWith (pData : RecordData) (samples : list (Z * (T * F)))
  : RecordData :=
  fold_left (fun p s => ingest p (fst s) (fst (snd s)) (snd (snd s)))
            samples pData.

(** ** What is observed of a store *)

(** The stored measurements, oldest first: [buffer[0 .. sampleCount - 1]]. *)
Definition contents (pData : RecordData) : list Sample :=
  map (buffer pData) (slots 0 (sampleCount pData - 1)).

(** The samples a fit over [number] points runs through: the slots the
    summation loop of [slopeIntersect] visits. *)
Definition window (pData : RecordData) (number : Z) : list Sample :=
  let firstSlot := sampleCount pData - number in
  let firstSlot := if firstSlot <? 0 then 0 else firstSlot in
  map (buffer pData) (slots firstSlot (sampleCount pData - 1)).

(** An offset into the initialised part of the buffer. *)
Definition inBounds (pData : RecordData) (i : Z) : Prop :=
  0 <= i <= sampleCount pData - 1.

(** The offsets the summation loop alone reads. *)
Definition loopReads (pData : RecordData) (number : Z) : list Z :=
  let firstSlot := sampleCount pData - number in
  let firstSlot := if firstSlot <? 0 then 0 else firstSlot in
  fst (loop pData (time (buffer pData (sampleCount pData - 1)))
            (slots firstSlot (sampleCount pData - 1)) zeroSums).

(** Two stores that cannot be told apart: same counters, same capacity,
    same decimation state, same stored measurements. *)
Definition sameStore (p q : RecordData) : Prop :=
  sampleCount p = sampleCount q /\
  maximumSamples p = maximumSamples q /\
  decimateCount p = decimateCount q /\
  decimateTotal p = decimateTotal q /\
  forall i, 0 <= i < sampleCount p -> buffer p i = buffer q i.

(** [rate[j] * rateOfChangeFactor] and [eta[j] / timeEstimateFactor] as
    written to VALB .. VALI. *)
Definition rateOut (o : Outputs) (j : nat) : F :=
  match j with
  | 0%nat => valb o | 1%nat => vald o | 2%nat => valf o | _ => valh o
  end.

Definition etaOut (o : Outputs) (j : nat) : F :=
  match j with
  | 0%nat => valc o | 1%nat => vale o | 2%nat => valg o | _ => vali o
  end.

(** ** Notions used in the statements *)

(** One pass of the loop body over slot [i], without the read log. *)
Definition step (pData : RecordData) (t0 : T) (acc : Sums) (i : Z) : Sums :=
  accumulate acc (epicsTimeDiffInSeconds (time (buffer pData i)) t0)
             (value (buffer pData i)).

(** The window bounds of [slopeIntersect]. *)
Definition firstSlotOf (p : RecordData) (number : Z) : Z :=
  if sampleCount p - number <? 0 then 0 else sampleCount p - number.

Definition lastSlotOf (p : RecordData) : Z := sampleCount p - 1.

(** The sums the loop leaves behind. *)
Definition windowSums (p : RecordData) (number : Z) : Sums :=
  fold_left (step p (time (buffer p (lastSlotOf p))))
            (slots (firstSlotOf p number) (lastSlotOf p)) zeroSums.

(** The quotients of lines 247-249. *)
Definition quotients (acc : Sums) : F * F :=
  let n := ofInt (actual_size acc) in
  let delta := fsub (fmul n (xx_sum acc)) (fmul (x_sum acc) (x_sum acc)) in
  (fdiv (fsub (fmul n (xy_sum acc)) (fmul (x_sum acc) (y_sum acc))) delta,
   fdiv (fsub (fmul (y_sum acc) (xx_sum acc)) (fmul (x_sum acc) (xy_sum acc)))
        delta).

(** A store within its capacity. *)
Definition bounded (c : Z) (p : RecordData) : Prop :=
  maximumSamples p = c /\ 0 <= sampleCount p <= c.

(** What every cycle keeps true of the record's private data. *)
Definition recordBounded (c : Z) (prec : aSubRecord) : Prop :=
  forall p, dpvt prec = Some p -> bounded c p.

(** The store while a group of raw samples is still being collected. *)
Definition collecting (p : RecordData) (n : Z) (total : F) : RecordData :=
  {| buffer := buffer p;
     sampleCount := sampleCount p;
     maximumSamples := maximumSamples p;
     decimateCount := n;
     decimateTotal := total |}.

End Model.

Arguments Sample : clear implicits.
Arguments RecordData : clear implicits.
Arguments Fields : clear implicits.
Arguments Outputs : clear implicits.
Arguments aSubRecord : clear implicits.
Arguments Sums : clear implicits.

(** ** The host of the compiled code *)

(** [epicsTimeStamp]: seconds and nanoseconds past the EPICS epoch. *)
Record epicsTimeStamp : Set := {
  secPastEpoch : Z;
  nsec : Z
}.

(** Conversion of a C integer to binary64 (round to nearest even). *)
Definition Z2F (z : Z) : float :=
  if z <? 0 then PrimFloat.opp (PrimFloat.of_uint63 (Uint63.of_Z (- z)))
  else PrimFloat.of_uint63 (Uint63.of_Z z).

(** IEEE binary64, as the compiled code computes.  The time difference is
    EPICS base's: the difference in nanoseconds, scaled by 1e-9.  The
    severities of alarm.h are NO_ALARM, MINOR, MAJOR, INVALID, so
    [epicsSevInvalid] is 3. *)
#[export] Instance Binary64 : Host float epicsTimeStamp := {|
  fzero := 0%float;
  fone := 1%float;
  fadd := PrimFloat.add;
  fsub := PrimFloat.sub;
  fmul := PrimFloat.mul;
  fdiv := PrimFloat.div;
  ofInt := Z2F;
  fleb := PrimFloat.leb;
  isnan := PrimFloat.is_nan;
  isinf := PrimFloat.is_infinity;
  tzero := {| secPastEpoch := 0; nsec := 0 |};
  epicsTimeDiffInSeconds l r :=
    PrimFloat.mul
      (Z2F ((secPastEpoch l - secPastEpoch r) * 1000000000 + (nsec l - nsec r)))
      0x1.12e0be826d695p-30%float;
  epicsSevInvalid := 3
|}.

(** ** Concrete records and stores *)

Definition tsec (s : Z) : epicsTimeStamp := {| secPastEpoch := s; nsec := 0 |}.

Definition sample64 (s : Z) (v : float) : Sample float epicsTimeStamp :=
  {| time := tsec s; value := v |}.

(** Memory filled with one sample everywhere. *)
Definition heapOf (s : Sample float epicsTimeStamp) : Z -> Sample float epicsTimeStamp :=
  fun _ => s.

(** All checked field types as [RattleInit] wants them. *)
Definition okTypes : FieldTypes :=
  {| fta := menuFtypeDOUBLE; ftb := menuFtypeLONG; ftc := menuFtypeDOUBLE;
     ftd := menuFtypeLONG; fte := menuFtypeDOUBLE;
     ftf := menuFtypeLONG; ftg := menuFtypeDOUBLE;
     fth := menuFtypeLONG; fti := menuFtypeDOUBLE;
     ftj := menuFtypeLONG; ftl := menuFtypeLONG; ftm := menuFtypeLONG;
     ftr := menuFtypeLONG; fts := menuFtypeDOUBLE; ftt := menuFtypeDOUBLE;
     ftva := menuFtypeLONG; ftvb := menuFtypeDOUBLE; ftvc := menuFtypeDOUBLE |}.

(** Input fields: value [a], severity [j], decimation [l], reset [r];
    window 5 and threshold 100 in every slot, scale factors 1. *)
Definition fields64 (a : float) (j l r : Z) : Fields float :=
  {| fld_a := a;
     fld_b := 5; fld_c := 100%float;
     fld_d := 5; fld_e := 100%float;
     fld_f := 5; fld_g := 100%float;
     fld_h := 5; fld_i := 100%float;
     fld_j := j; fld_l := l; fld_m := 0; fld_r := r;
     fld_s := 1%float; fld_t := 1%float |}.

Definition noOutputs : Outputs float :=
  {| vala := 0; valb := 0%float; valc := 0%float; vald := 0%float;
     vale := 0%float; valf := 0%float; valg := 0%float; valh := 0%float;
     vali := 0%float |}.

Definition blank64 : aSubRecord float epicsTimeStamp :=
  {| ft := okTypes; fld := fields64 0%float 0 1 0; pact := 0; dpvt := None;
     val := noOutputs |}.

(** A record straight out of [RattleInit] (capacity 10). *)
Definition init64 : aSubRecord float epicsTimeStamp :=
  snd (RattleInit (heapOf (sample64 0 0%float)) blank64).

(** A store with one measurement, value 5 taken at second 100. *)
Definition oneSample64 : RecordData float epicsTimeStamp :=
  {| buffer := fun i => if i =? 0 then sample64 100 5%float
                        else sample64 0 0%float;
     sampleCount := 1; maximumSamples := 10;
     decimateCount := 0; decimateTotal := 0%float |}.

(** An empty store of capacity 10. *)
Definition empty64 : RecordData float epicsTimeStamp :=
  freshData (heapOf (sample64 0 0%float)) 10.

(** Ten cycles, one per second, feeding the values 0, 2, 4, ..., 18
    (decimation 1, no reset, severity 0). *)
Definition tenCycles : list (epicsTimeStamp * Fields float) :=
  map (fun i => (tsec i, fields64 (Z2F (2 * i)) 0 1 0)) (slots 0 9).

Definition storeOf (prec : aSubRecord float epicsTimeStamp)
  : RecordData float epicsTimeStamp :=
  match dpvt prec with Some p => p | None => empty64 end.

(** The record after the ten cycles: its store is full. *)
Definition full64 : aSubRecord float epicsTimeStamp := run init64 tenCycles.

(** A cycle on the initialised record with a NaN input and severity INVALID. *)
Definition nanInvalid64 : aSubRecord float epicsTimeStamp :=
  setFields init64 (fields64 PrimFloat.nan 3 1 0).

(** The full record handed a finite value, a reset request and severity
    INVALID. *)
Definition resetInvalid64 : aSubRecord float epicsTimeStamp :=
  setFields full64 (fields64 20%float 3 1 1).

(** A cycle with a NaN input and severity 0. *)
Definition nanValid64 : aSubRecord float epicsTimeStamp :=
  setFields init64 (fields64 PrimFloat.nan 0 1 0).

(** One raw value 10 taken in under decimation factor 3: nothing stored,
    pending count 1, running sum 10. *)
Definition pending64 : RecordData float epicsTimeStamp :=
  ingest empty64 3 (tsec 1) 10%float.

(** ** Sums over rationals *)

(** Sum of a list of rationals, and of their squares. *)
Definition sumQ (xs : list Q) : Q := fold_right Qplus 0%Q xs.

Definition sumSquares (xs : list Q) : Q := sumQ (map (fun x => x * x)%Q xs).

(** Sum of the squared distances from [a]. *)
Definition spread (a : Q) (xs : list Q) : Q :=
  sumQ (map (fun x => (a - x) * (a - x))%Q xs).

(** [n * Sxx - Sx * Sx] over a list of abscissae. *)
Definition deltaOf (xs : list Q) : Q :=
  (inject_Z (Z.of_nat (length xs)) * sumSquares xs - sumQ xs * sumQ xs)%Q.

(** The field types with FTB declared DOUBLE: [RattleInit] refuses them. *)
Definition badTypes : FieldTypes :=
  {| fta := menuFtypeDOUBLE; ftb := menuFtypeDOUBLE; ftc := menuFtypeDOUBLE;
     ftd := menuFtypeLONG; fte := menuFtypeDOUBLE;
     ftf := menuFtypeLONG; ftg := menuFtypeDOUBLE;
     fth := menuFtypeLONG; fti := menuFtypeDOUBLE;
     ftj := menuFtypeLONG; ftl := menuFtypeLONG; ftm := menuFtypeLONG;
     ftr := menuFtypeLONG; fts := menuFtypeDOUBLE; ftt := menuFtypeDOUBLE;
     ftva := menuFtypeLONG; ftvb := menuFtypeDOUBLE; ftvc := menuFtypeDOUBLE |}.

Definition badRecord64 : aSubRecord float epicsTimeStamp :=
  {| ft := badTypes; fld := fields64 0%float 0 1 0; pact := 0; dpvt := None;
     val := noOutputs |}.

(** Memory in which every offset holds a sample of its own. *)
Definition markedHeap : Z -> Sample float epicsTimeStamp :=
  fun i => sample64 i (Z2F i).

(** Twelve cycles, two more than the capacity. *)
Definition twelveCycles : list (epicsTimeStamp * Fields float) :=
  map (fun i => (tsec i, fields64 (Z2F (2 * i)) 0 1 0)) (slots 0 11).

(** Twelve raw samples, values 0, 2, ..., 22. *)
Definition twelveSamples : list (epicsTimeStamp * float) :=
  map (fun i => (tsec i, Z2F (2 * i))) (slots 0 11).

(** The full record handed a finite value with a reset request. *)
Definition resetValid64 : aSubRecord float epicsTimeStamp :=
  setFields full64 (fields64 20%float 0 1 1).

(** The full store with its oldest measurement replaced. *)
Definition alteredOldest64 : RecordData float epicsTimeStamp :=
  {| buffer := store (buffer (storeOf full64)) 0 (sample64 0 1000%float);
     sampleCount := 10; maximumSamples := 10;
     decimateCount := 0; decimateTotal := 0%float |}.

(** A binary64 value that is a zero or NaN. *)
Definition zeroOrNan (x : float) : Prop :=
  x = 0%float \/ x = (-0)%float \/ x = PrimFloat.nan.

(** ** The number a binary64 value stands for *)

(** A finite binary64 number is [+/- m * 2^e]; infinities and NaN stand
    for no number. *)
Definition SF2Q (x : spec_float) : option Q :=
  match x with
  | S754_zero _ => Some 0%Q
  | S754_finite s m e =>
      Some (inject_Z (if s then Z.neg m else Z.pos m) * Qpower 2 e)%Q
  | _ => None
  end.

Definition exactValue (x : float) : option Q := SF2Q (Prim2SF x).

(** The same, with 0 for infinities and NaN. *)
Definition valueQ (x : float) : Q :=
  match exactValue x with Some v => v | None => 0%Q end.

(** [x] is finite and stands for the rational [q]. *)
Definition exactly (x : float) (q : Q) : bool :=
  match exactValue x with Some v => Qeq_bool v q | None => false end.

Definition represents (x : float) (q : Q) : Prop := exactly x q = true.

(** The binary64 operation [fop] applied to [x] and [y] did not round:
    both operands are finite and the result stands for what the operation
    [qop] on rationals gives on the numbers they stand for. *)
Definition exactOp (fop : float -> float -> float) (qop : Q -> Q -> Q)
    (x y : float) : bool :=
  match exactValue x, exactValue y with
  | Some a, Some b => exactly (fop x y) (qop a b)
  | _, _ => false
  end.

(** A time stamp in nanoseconds past the epoch, and the time from [r] to
    [l] in seconds. *)
Definition nanoseconds (t : epicsTimeStamp) : Z :=
  secPastEpoch t * 1000000000 + nsec t.

Definition secondsBetween (l r : epicsTimeStamp) : Q :=
  ((secPastEpoch l - secPastEpoch r) * 1000000000 + (nsec l - nsec r))
  # 1000000000.

(** ** Runs of the fit in which nothing is rounded *)

(** No operation of one iteration of the loop of [slopeIntersect]
    (lines 238-244) rounds: the time difference, the two products and the
    four additions. *)
Definition stepExact (p : RecordData float epicsTimeStamp) (t0 : epicsTimeStamp)
    (acc : Sums float) (i : Z) : bool :=
  let x := epicsTimeDiffInSeconds (time (buffer p i)) t0 in
  let y := value (buffer p i) in
  exactly x (secondsBetween (time (buffer p i)) t0)
  && exactOp PrimFloat.add Qplus (x_sum acc) x
  && exactOp PrimFloat.add Qplus (y_sum acc) y
  && exactOp PrimFloat.mul Qmult x x
  && exactOp PrimFloat.add Qplus (xx_sum acc) (PrimFloat.mul x x)
  && exactOp PrimFloat.mul Qmult x y
  && exactOp PrimFloat.add Qplus (xy_sum acc) (PrimFloat.mul x y).

(** The same of every iteration over the slots [idx], from the sums [acc]. *)
Fixpoint loopExact (p : RecordData float epicsTimeStamp) (t0 : epicsTimeStamp)
    (idx : list Z) (acc : Sums float) : bool :=
  match idx with
  | [] => true
  | i :: rest => stepExact p t0 acc i && loopExact p t0 rest (step p t0 acc i)
  end.

(** No operation of lines 247-249 rounds: the conversion of [actual_size],
    the six products, the three differences and the two quotients. *)
Definition quotientsExact (acc : Sums float) : bool :=
  let n := Z2F (actual_size acc) in
  let nxx := PrimFloat.mul n (xx_sum acc) in
  let xx := PrimFloat.mul (x_sum acc) (x_sum acc) in
  let delta := PrimFloat.sub nxx xx in
  let nxy := PrimFloat.mul n (xy_sum acc) in
  let xy := PrimFloat.mul (x_sum acc) (y_sum acc) in
  let yxx := PrimFloat.mul (y_sum acc) (xx_sum acc) in
  let xxy := PrimFloat.mul (x_sum acc) (xy_sum acc) in
  exactly n (inject_Z (actual_size acc))
  && exactOp PrimFloat.mul Qmult n (xx_sum acc)
  && exactOp PrimFloat.mul Qmult (x_sum acc) (x_sum acc)
  && exactOp PrimFloat.sub Qminus nxx xx
  && exactOp PrimFloat.mul Qmult n (xy_sum acc)
  && exactOp PrimFloat.mul Qmult (x_sum acc) (y_sum acc)
  && exactOp PrimFloat.sub Qminus nxy xy
  && exactOp PrimFloat.div Qdiv (PrimFloat.sub nxy xy) delta
  && exactOp PrimFloat.mul Qmult (y_sum acc) (xx_sum acc)
  && exactOp PrimFloat.mul Qmult (x_sum acc) (xy_sum acc)
  && exactOp PrimFloat.sub Qminus yxx xxy
  && exactOp PrimFloat.div Qdiv (PrimFloat.sub yxx xxy) delta.

(** No operation of a fit over [number >= 2] points rounds. *)
Definition noRounding (p : RecordData float epicsTimeStamp) (number : Z) : bool :=
  loopExact p (time (buffer p (lastSlotOf p)))
            (slots (firstSlotOf p number) (lastSlotOf p)) zeroSums
  && quotientsExact (windowSums p number).

(** The four sums stand for the rationals [sx], [sy], [sxx], [sxy]. *)
Definition representsSums (acc : Sums float) (sx sy sxx sxy : Q) : Prop :=
  represents (x_sum acc) sx /\ represents (y_sum acc) sy /\
  represents (xx_sum acc) sxx /\ represents (xy_sum acc) sxy.

(** ** The error of a line over a window *)

(** What the sample in slot [i] lies above the line through
    [(t_newest, intercept)] with the given slope. *)
Definition residual (p : RecordData float epicsTimeStamp) (slope intercept : Q)
    (i : Z) : Q :=
  (valueQ (value (buffer p i))
   - (intercept
      + slope * secondsBetween (time (buffer p i))
                               (time (buffer p (lastSlotOf p)))))%Q.

(** The sum of the squared residuals over the window of [number] points. *)
Definition squaredError (p : RecordData float epicsTimeStamp) (number : Z)
    (slope intercept : Q) : Q :=
  sumQ (map (fun i => residual p slope intercept i * residual p slope intercept i)%Q
            (slots (firstSlotOf p number) (lastSlotOf p))).

(** ** Further stores *)


(** Three samples that are not on a line: (0,0), (1,3), (2,0). *)
Definition bumpy64 : RecordData float epicsTimeStamp :=
  {| buffer := fun i => sample64 i (if i =? 1 then 3%float else 0%float);
     sampleCount := 3; maximumSamples := 10;
     decimateCount := 0; decimateTotal := 0%float |}.

(** Ten samples, one per second, with the values 0, 2, ..., 18. *)
Definition ramp64 : RecordData float epicsTimeStamp :=
  {| buffer := fun i => sample64 i (Z2F (2 * i));
     sampleCount := 10; maximumSamples := 10;
     decimateCount := 0; decimateTotal := 0%float |}.

(** [ramp64] with every time stamp moved by 99.5 seconds. *)
Definition shifted64 : RecordData float epicsTimeStamp :=
  {| buffer := fun i => {| time := {| secPastEpoch := i + 99; nsec := 500000000 |};
                           value := Z2F (2 * i) |};
     sampleCount := 10; maximumSamples := 10;
     decimateCount := 0; decimateTotal := 0%float |}.

(** ** The report of a failed field-type check *)

(** [fypeName].  Every value of [menuFtype] is listed, so the [default]
    branch of the C switch ("other") is never taken. *)
Definition fypeName (t : menuFtype) : String.string :=
  match t with
  | menuFtypeSTRING => "STRING"
  | menuFtypeCHAR => "CHAR"
  | menuFtypeUCHAR => "UCHAR"
  | menuFtypeSHORT => "SHORT"
  | menuFtypeUSHORT => "USHORT"
  | menuFtypeLONG => "LONG"
  | menuFtypeULONG => "ULONG"
  | menuFtypeINT64 => "INT64"
  | menuFtypeUINT64 => "UINT64"
  | menuFtypeFLOAT => "FLOAT"
  | menuFtypeDOUBLE => "DOUBLE"
  | menuFtypeENUM => "ENUM"
  end%string.

(** [prec->ftz != kind], negated. *)
Definition sameFtype (a b : menuFtype) : bool :=
  match a, b with
  | menuFtypeSTRING, menuFtypeSTRING | menuFtypeCHAR, menuFtypeCHAR
  | menuFtypeUCHAR, menuFtypeUCHAR | menuFtypeSHORT, menuFtypeSHORT
  | menuFtypeUSHORT, menuFtypeUSHORT | menuFtypeLONG, menuFtypeLONG
  | menuFtypeULONG, menuFtypeULONG | menuFtypeINT64, menuFtypeINT64
  | menuFtypeUINT64, menuFtypeUINT64 | menuFtypeFLOAT, menuFtypeFLOAT
  | menuFtypeDOUBLE, menuFtypeDOUBLE | menuFtypeENUM, menuFtypeENUM => true
  | _, _ => false
  end.

(** What [errlogPrintf] is given besides the record name: the field, the
    name of its type, the name of the expected type. *)
Record TypeReport : Set := {
  reportField : String.string;
  reportActual : String.string;
  reportExpected : String.string
}.

(** One [CHECK_FIELD_TYPE (ftz, fname, kind)]: [None] when the check
    passes, the report when it returns -1. *)
Definition CHECK_FIELD_TYPE (ftz : menuFtype) (fname : String.string) (kind : menuFtype)
  : option TypeReport :=
  if sameFtype ftz kind then None
  else Some {| reportField := fname;
               reportActual := fypeName ftz;
               reportExpected := fypeName kind |}.

(** The first check that fails stops the others. *)
Fixpoint firstReport (checks : list (option TypeReport)) : option TypeReport :=
  match checks with
  | [] => None
  | Some r :: _ => Some r
  | None :: rest => firstReport rest
  end.

(** The twelve checks of [RattleInit], lines 265-280, in order. *)
Definition initReport (t : FieldTypes) : option TypeReport :=
  firstReport
    [CHECK_FIELD_TYPE (fta t) "FTA" menuFtypeDOUBLE;
     CHECK_FIELD_TYPE (ftb t) "FTB" menuFtypeLONG;
     CHECK_FIELD_TYPE (ftc t) "FTC" menuFtypeDOUBLE;
     CHECK_FIELD_TYPE (ftl t) "FTL" menuFtypeLONG;
     CHECK_FIELD_TYPE (ftj t) "FTJ" menuFtypeLONG;
     CHECK_FIELD_TYPE (ftm t) "FTM" menuFtypeLONG;
     CHECK_FIELD_TYPE (ftr t) "FTR" menuFtypeLONG;
     CHECK_FIELD_TYPE (fts t) "FTS" menuFtypeDOUBLE;
     CHECK_FIELD_TYPE (ftt t) "FTT" menuFtypeDOUBLE;
     CHECK_FIELD_TYPE (ftva t) "FTVA" menuFtypeLONG;
     CHECK_FIELD_TYPE (ftvb t) "FTVB" menuFtypeDOUBLE;
     CHECK_FIELD_TYPE (ftvc t) "FTVC" menuFtypeDOUBLE]%string.

(** ** Lists of samples *)

(** The last [n] elements of a list. *)
Definition lastN {A} (n : nat) (l : list A) : list A :=
  skipn (length l - n) l.

(** ** Requests and memory *)

Section Requests.

Context {F T : Type} `{HostFT : Host F T}.

(** The size asked for slot [j]: the first argument of [LIMIT] at lines
    365-368. *)
Definition windowRequest (prec : aSubRecord F T) (j : nat) : Z :=
  let t := ft prec in
  let v := fld prec in
  match j with
  | 0%nat => LONG_VALUE (ftb t) (fld_b v) 2
  | 1%nat => LONG_VALUE (ftd t) (fld_d v) 2
  | 2%nat => LONG_VALUE (ftf t) (fld_f v) 2
  | _ => LONG_VALUE (fth t) (fld_h v) 2
  end.

(** The sizes [RattleInit] takes the maximum of: [n1] .. [n5]. *)
Definition initRequests (prec : aSubRecord F T) : list Z :=
  [LONG_VALUE (ftb (ft prec)) (fld_b (fld prec)) 0;
   LONG_VALUE (ftd (ft prec)) (fld_d (fld prec)) 0;
   LONG_VALUE (ftf (ft prec)) (fld_f (fld prec)) 0;
   LONG_VALUE (fth (ft prec)) (fld_h (fld prec)) 0;
   LONG_VALUE (ftm (ft prec)) (fld_m (fld prec)) 0].

(** A store of capacity [c] set in [heap]: within its capacity, and the
    memory around the array is still what [heap] holds. *)
Definition setIn (heap : Z -> Sample F T) (c : Z) (p : RecordData F T) : Prop :=
  bounded c p /\ forall i, ~ (0 <= i < c) -> buffer p i = heap i.

Definition recordSetIn (heap : Z -> Sample F T) (c : Z) (prec : aSubRecord F T)
  : Prop :=
  forall p, dpvt prec = Some p -> setIn heap c p.

(** The raw samples as they are stored under factor 1. *)
Definition asSamples (samples : list (T * F)) : list (Sample F T) :=
  map (fun s => {| time := fst s; value := snd s |}) samples.

Definition finiteSample (s : Sample F T) : Prop := isNanOrInfinite (value s) = false.

(** A store whose history holds finite values only. *)
Definition finiteStore (c : Z) (p : RecordData F T) : Prop :=
  bounded c p /\ 0 <= decimateCount p /\ Forall finiteSample (contents p).

(** A cycle that gets past the severity test and the NaN test (lines 335
    and 339) on a record with field types [t]. *)
Definition processed (t : FieldTypes) (cy : T * Fields F) : bool :=
  negb (LONG_VALUE (ftj t) (fld_j (snd cy)) 0 >=? epicsSevInvalid)
  && negb (isNanOrInfinite (fld_a (snd cy))).

(** The decimation factor, the time and the value a cycle hands to the
    store. *)
Definition rawSample (t : FieldTypes) (cy : T * Fields F) : Z * (T * F) :=
  (ZERO2ONE_int (LONG_VALUE (ftl t) (fld_l (snd cy)) 1),
   (fst cy, fld_a (snd cy))).

(** Two records that differ at most in their input fields and [pact]. *)
Definition sameState (a b : aSubRecord F T) : Prop :=
  ft a = ft b /\ dpvt a = dpvt b /\ val a = val b.

End Requests.

(** * Properties *)

Section Properties.

Context {F T : Type} `{HostFT : Host F T}.

#[local] Abbreviation Sample := (Sample F T).
#[local] Abbreviation RecordData := (RecordData F T).
#[local] Abbreviation aSubRecord := (aSubRecord F T).

(** ** The loop bounds *)

Lemma slots_empty (a b : Z) : b < a -> slots a b = [].
Proof.
  intros Hlt. unfold slots.
  replace (Z.to_nat (b + 1 - a)) with 0%nat by lia. reflexivity.
Qed.

Lemma slots_cons (a b : Z) : a <= b -> slots a b = a :: slots (a + 1) b.
Proof.
  intros Hle. unfold slots.
  replace (Z.to_nat (b + 1 - a)) with (S (Z.to_nat (b + 1 - (a + 1)))) by lia.
  cbn [seq map]. f_equal; [lia|].
  rewrite <- seq_shift, map_map.
  apply map_ext. intros k. lia.
Qed.

Lemma slots_snoc (a b : Z) : a <= b -> slots a b = slots a (b - 1) ++ [b].
Proof.
  intros Hle. unfold slots.
  replace (Z.to_nat (b + 1 - a)) with (Z.to_nat (b - 1 + 1 - a) + 1)%nat by lia.
  rewrite seq_app, map_app. cbn [seq map Nat.add]. do 2 f_equal. lia.
Qed.

Lemma in_slots (a b i : Z) : In i (slots a b) <-> a <= i <= b.
Proof.
  unfold slots. rewrite in_map_iff. split.
  - intros [k [<- Hk]]. apply in_seq in Hk. lia.
  - intros Hi. exists (Z.to_nat (i - a)). split; [lia|].
    apply in_seq. lia.
Qed.

(** ** The summation loop *)

Lemma loop_result (pData : RecordData) (t0 : T) (idx : list Z) (acc : Sums F) :
  snd (loop pData t0 idx acc) = fold_left (step pData t0) idx acc.
Proof.
  revert acc. induction idx as [|i rest IH]; intros acc; [reflexivity|].
  cbn [loop fold_left]. unfold loopBody, bind, readBuffer, ret. cbn.
  specialize (IH (step pData t0 acc i)). unfold step in IH at 1.
  destruct (loop pData t0 rest _) as [l r]. cbn in *. exact IH.
Qed.

Lemma loop_reads (pData : RecordData) (t0 : T) (idx : list Z) (acc : Sums F) :
  fst (loop pData t0 idx acc) = flat_map (fun i => [i; i]) idx.
Proof.
  revert acc. induction idx as [|i rest IH]; intros acc; [reflexivity|].
  cbn [loop flat_map]. unfold loopBody, bind, readBuffer, ret. cbn.
  specialize (IH (accumulate acc
    (epicsTimeDiffInSeconds (time (buffer pData i)) t0) (value (buffer pData i)))).
  destruct (loop pData t0 rest _) as [l r]. cbn in *. now rewrite IH.
Qed.

(** ** Cycles that are skipped or rejected *)

Lemma maximumSamples_insert (p : RecordData) (m : Sample) :
  maximumSamples (insert p m) = maximumSamples p.
Proof. unfold insert. destruct (_ <? _); reflexivity. Qed.

Lemma maximumSamples_ingest (p : RecordData) (k : Z) (now : T) (v : F) :
  maximumSamples (ingest p k now v) = maximumSamples p.
Proof.
  unfold ingest, decimate.
  destruct (decimateCount p <? k); cbn;
    destruct (_ >=? k); cbn; try rewrite maximumSamples_insert; reflexivity.
Qed.

(** C6.  A cycle whose severity is at or above [epicsSevInvalid] returns 0
    and leaves the whole record as it was: store, decimation state and
    outputs; neither the reset nor the ingest is carried out. *)
Theorem invalid_severity_skips_cycle (now : T) (prec : aSubRecord) (pData : RecordData) :
  dpvt prec = Some pData ->
  severityOf prec >= epicsSevInvalid ->
  RattleProcess now prec = (0, prec).
Proof.
  intros Hd Hsev. unfold RattleProcess. rewrite Hd.
  destruct (severityOf prec >=? epicsSevInvalid) eqn:E; [reflexivity|lia].
Qed.

(** The record is untouched by a skipped cycle whatever its private data. *)
Lemma invalid_severity_keeps_record (now : T) (prec : aSubRecord) :
  severityOf prec >= epicsSevInvalid ->
  snd (RattleProcess now prec) = prec.
Proof.
  intros Hsev. unfold RattleProcess. destruct (dpvt prec); [|reflexivity].
  destruct (severityOf prec >=? epicsSevInvalid) eqn:E; [reflexivity|lia].
Qed.

(** C3, as the code has it.  A NaN or infinite input is rejected with
    status -1 when the severity is below [epicsSevInvalid]; when the
    severity is at or above it the cycle is skipped with status 0 before the
    value is looked at.  Either way the record (store, decimation state,
    outputs) is left as it was. *)
Theorem non_finite_input_rejected (now : T) (prec : aSubRecord) :
  isNanOrInfinite (fld_a (fld prec)) = true ->
  snd (RattleProcess now prec) = prec /\
  (severityOf prec < epicsSevInvalid -> fst (RattleProcess now prec) = -1) /\
  (severityOf prec >= epicsSevInvalid -> dpvt prec <> None ->
     fst (RattleProcess now prec) = 0).
Proof.
  intros Hnan. unfold RattleProcess. rewrite Hnan.
  destruct (dpvt prec) as [pData|].
  - destruct (severityOf prec >=? epicsSevInvalid) eqn:E; cbn;
      repeat split; intros; try reflexivity; lia.
  - cbn. repeat split; intros; try reflexivity. congruence.
Qed.

(** ** A cycle that goes through *)

Lemma estimate_rate (q : RecordData) (number : Z) (threshold rF tF : F) :
  fst (estimate q number threshold rF tF)
  = fmul (fst (slopeIntersect q number)) rF.
Proof. unfold estimate. now destruct (slopeIntersect q number). Qed.

Lemma estimate_eta (q : RecordData) (number : Z) (threshold rF tF : F) :
  snd (estimate q number threshold rF tF)
  = fdiv (fdiv (fsub threshold (snd (slopeIntersect q number)))
               (fst (slopeIntersect q number))) tF.
Proof. unfold estimate. now destruct (slopeIntersect q number). Qed.

(** C7.  In a cycle that is neither skipped nor rejected the status is 0,
    the store is the old one after the optional reset and the ingest with
    the decimation factor floored to 1, VALA is the number of stored
    measurements, and for each slot [j] the rate written is
    [slope * rateScale] and the time written is
    [((threshold - intercept) / slope) / timeScale], both scale factors
    being the configured ones replaced by 1.0 when [<= 0]. *)
Theorem outputs_are_scaled_fit (now : T) (prec : aSubRecord) (pData : RecordData) :
  dpvt prec = Some pData ->
  severityOf prec < epicsSevInvalid ->
  isNanOrInfinite (fld_a (fld prec)) = false ->
  let s := DOUBLE_VALUE (fts (ft prec)) (fld_s (fld prec)) fone in
  let t := DOUBLE_VALUE (ftt (ft prec)) (fld_t (fld prec)) fone in
  let l := LONG_VALUE (ftl (ft prec)) (fld_l (fld prec)) 1 in
  let rateScale := if fleb s fzero then fone else s in
  let timeScale := if fleb t fzero then fone else t in
  let factor := if l <=? 0 then 1 else l in
  let q := ingest (if fld_r (fld prec) =? 1 then reset pData else pData)
                  factor now (fld_a (fld prec)) in
  let prec' := snd (RattleProcess now prec) in
  fst (RattleProcess now prec) = 0 /\
  dpvt prec' = Some q /\
  vala (val prec') = sampleCount q /\
  forall j, (j < 4)%nat ->
    let number := numberSamples prec (maximumSamples q) j in
    let slope := fst (slopeIntersect q number) in
    let intercept := snd (slopeIntersect q number) in
    2 <= number /\
    rateOut (val prec') j = fmul slope rateScale /\
    etaOut (val prec') j =
      fdiv (fdiv (fsub (thresholds prec j) intercept) slope) timeScale.
Proof.
  intros Hd Hsev Hfin s t l rateScale timeScale factor q prec'.
  assert (Hmax : maximumSamples q = maximumSamples pData).
  { unfold q. rewrite maximumSamples_ingest.
    destruct (fld_r (fld prec) =? 1); reflexivity. }
  unfold prec', RattleProcess. rewrite Hd, Hfin.
  destruct (severityOf prec >=? epicsSevInvalid) eqn:E; [lia|].
  cbn [fst snd dpvt val vala].
  repeat split; try reflexivity.
  - unfold numberSamples, LIMIT, MAX.
    destruct j as [|[|[|j]]]; destruct (2 >=? _) eqn:E2; lia.
  - rewrite Hmax.
    destruct j as [|[|[|[|j]]]]; try lia; cbn [rateOut valb vald valf valh];
      apply estimate_rate.
  - rewrite Hmax.
    destruct j as [|[|[|[|j]]]]; try lia; cbn [etaOut valc vale valg vali];
      apply estimate_eta.
Qed.

(** ** The store stays within its capacity *)

Lemma map_slots_ext {A} (f g : Z -> A) (a b : Z) :
  (forall i, a <= i <= b -> f i = g i) ->
  map f (slots a b) = map g (slots a b).
Proof.
  intros Hfg. apply map_ext_in. intros i Hi. apply Hfg, in_slots, Hi.
Qed.

Lemma map_slots_shift {A} (f : Z -> A) (a b : Z) :
  map (fun i => f (i + 1)) (slots a b) = map f (slots (a + 1) (b + 1)).
Proof.
  unfold slots. rewrite !map_map.
  replace (b + 1 + 1 - (a + 1)) with (b + 1 - a) by lia.
  apply map_ext. intros k. f_equal. lia.
Qed.

Lemma sampleCount_insert (p : RecordData) (m : Sample) :
  sampleCount (insert p m)
  = if sampleCount p <? maximumSamples p then sampleCount p + 1
    else sampleCount p.
Proof. unfold insert. destruct (_ <? _); reflexivity. Qed.

(** Appending while there is room (line 413). *)
Lemma contents_insert_room (p : RecordData) (m : Sample) :
  0 <= sampleCount p < maximumSamples p ->
  contents (insert p m) = contents p ++ [m].
Proof.
  intros Hc. unfold contents, insert.
  destruct (sampleCount p <? maximumSamples p) eqn:E; [|lia].
  cbn [buffer sampleCount].
  rewrite (slots_snoc 0 (sampleCount p + 1 - 1)) by lia.
  replace (sampleCount p + 1 - 1 - 1) with (sampleCount p - 1) by lia.
  rewrite map_app. cbn [map]. f_equal.
  - apply map_slots_ext. intros i Hi. unfold store.
    destruct (i =? sampleCount p) eqn:Ei; [lia|reflexivity].
  - unfold store. rewrite (proj2 (Z.eqb_eq _ _)) by lia. reflexivity.
Qed.

(** Shuffling a full buffer by one measurement (lines 418-420). *)
Lemma contents_insert_full (p : RecordData) (m : Sample) :
  sampleCount p = maximumSamples p -> 1 <= maximumSamples p ->
  contents (insert p m) = tl (contents p) ++ [m].
Proof.
  intros Hfull Hpos. unfold contents, insert.
  destruct (sampleCount p <? maximumSamples p) eqn:E; [lia|].
  cbn [buffer sampleCount]. rewrite Hfull.
  rewrite (slots_snoc 0 (maximumSamples p - 1)) at 1 by lia.
  rewrite (slots_cons 0 (maximumSamples p - 1)) by lia. cbn [map tl].
  rewrite map_app. cbn [map]. f_equal.
  - replace (slots (0 + 1) (maximumSamples p - 1))
      with (slots (0 + 1) (maximumSamples p - 1 - 1 + 1)) by (f_equal; lia).
    rewrite <- map_slots_shift.
    apply map_slots_ext. intros i Hi. unfold store, memmoveDown.
    destruct (i =? maximumSamples p - 1) eqn:Ei; [lia|].
    destruct ((0 <=? i) && (i <? maximumSamples p - 1)) eqn:Er; [reflexivity|].
    apply andb_false_iff in Er. destruct Er; lia.
  - unfold store. rewrite Z.eqb_refl. reflexivity.
Qed.

Lemma bounded_reset (c : Z) (p : RecordData) :
  0 <= c -> maximumSamples p = c -> bounded c (reset p).
Proof. intros Hc Hm. split; cbn; [assumption|lia]. Qed.

Lemma bounded_insert (c : Z) (p : RecordData) (m : Sample) :
  bounded c p -> bounded c (insert p m).
Proof.
  intros [Hm Hs]. split; [now rewrite maximumSamples_insert|].
  rewrite sampleCount_insert. destruct (sampleCount p <? maximumSamples p) eqn:E; lia.
Qed.

Lemma bounded_ingest (c : Z) (p : RecordData) (k : Z) (now : T) (v : F) :
  bounded c p -> bounded c (ingest p k now v).
Proof.
  intros Hb. unfold ingest.
  assert (Hd : bounded c (decimate p k v)).
  { unfold decimate. destruct (decimateCount p <? k); [|assumption].
    destruct Hb. split; assumption. }
  destruct (decimateCount (decimate p k v) >=? k); [|assumption].
  apply bounded_insert. destruct Hd. split; assumption.
Qed.

Lemma bounded_feedWith (c : Z) (samples : list (Z * (T * F))) (p : RecordData) :
  bounded c p -> bounded c (feedWith p samples).
Proof.
  revert p. induction samples as [|s rest IH]; intros p Hb; [assumption|].
  apply IH, bounded_ingest, Hb.
Qed.

Lemma initCapacity_range (prec : aSubRecord) :
  10 <= initCapacity prec <= 32768.
Proof.
  unfold initCapacity, LIMIT. cbv zeta.
  match goal with |- context [MIN ?m 32768] => generalize m end.
  intros z. unfold MAX, MIN.
  destruct (z <=? 32768) eqn:E1; destruct (10 >=? _) eqn:E2; lia.
Qed.

Lemma recordBounded_init (heap : Z -> Sample) (prec : aSubRecord) :
  recordBounded (initCapacity prec) (snd (RattleInit heap prec)).
Proof.
  intros p. unfold RattleInit.
  destruct (negb (fieldTypesOk (ft (set_dpvt prec None)))); cbn; [discriminate|].
  intros [= <-]. pose proof (initCapacity_range prec) as Hr.
  split; cbn; [reflexivity|].
  change (initCapacity (set_dpvt prec None)) with (initCapacity prec). lia.
Qed.

Lemma recordBounded_process (c : Z) (now : T) (prec : aSubRecord) :
  0 <= c -> recordBounded c prec ->
  recordBounded c (snd (RattleProcess now prec)).
Proof.
  intros Hc Hb q. unfold RattleProcess.
  destruct (dpvt prec) as [p|] eqn:Hd; [|cbn; rewrite Hd; discriminate].
  specialize (Hb p Hd).
  destruct (severityOf prec >=? epicsSevInvalid); [cbn; rewrite Hd; now intros [= <-]|].
  destruct (isNanOrInfinite _); [cbn; rewrite Hd; now intros [= <-]|].
  cbn. intros [= <-]. apply bounded_ingest.
  destruct (fld_r (fld prec) =? 1); [|assumption].
  destruct Hb as [Hm _]. now apply bounded_reset.
Qed.

Lemma recordBounded_run (c : Z) (cycles : list (T * Fields F)) (prec : aSubRecord) :
  0 <= c -> recordBounded c prec -> recordBounded c (run prec cycles).
Proof.
  intros Hc. revert prec.
  induction cycles as [|cy rest IH]; intros prec Hb; [assumption|].
  apply IH. unfold cycle. apply recordBounded_process; [assumption|].
  intros p Hp. apply Hb. exact Hp.
Qed.

(** C4.  After [RattleInit] and any sequence of cycles the store holds at
    most [maximumSamples] measurements, and [maximumSamples] is the
    capacity fixed at initialisation.  Putting a measurement into a full
    store drops the oldest one, keeps the others in order, places the new
    one last, and leaves the length at the capacity. *)
Theorem store_never_exceeds_capacity
    (heap : Z -> Sample) (prec0 : aSubRecord) (cycles : list (T * Fields F))
    (p : RecordData) :
  dpvt (run (snd (RattleInit heap prec0)) cycles) = Some p ->
  maximumSamples p = initCapacity prec0 /\
  0 <= sampleCount p <= maximumSamples p /\
  forall m : Sample,
    sampleCount p = maximumSamples p ->
    sampleCount (insert p m) = maximumSamples p /\
    maximumSamples (insert p m) = maximumSamples p /\
    contents (insert p m) = tl (contents p) ++ [m].
Proof.
  intros Hd.
  pose proof (initCapacity_range prec0) as Hr.
  destruct (recordBounded_run (initCapacity prec0) cycles _ ltac:(lia)
              (recordBounded_init heap prec0) p Hd) as [Hm Hs].
  split; [assumption|]. split; [lia|].
  intros m Hfull. rewrite sampleCount_insert, maximumSamples_insert.
  destruct (sampleCount p <? maximumSamples p) eqn:E; [lia|].
  repeat split; try assumption.
  apply contents_insert_full; [assumption|lia].
Qed.

(** ** Decimation *)

Lemma collecting_self (p : RecordData) :
  collecting p (decimateCount p) (decimateTotal p) = p.
Proof. now destruct p. Qed.

Lemma ingest_below (p : RecordData) (k : Z) (now : T) (v : F) :
  decimateCount p + 1 < k ->
  ingest p k now v
  = collecting p (decimateCount p + 1) (fadd (decimateTotal p) v).
Proof.
  intros Hlt. unfold ingest, decimate.
  destruct (decimateCount p <? k) eqn:E1; [|lia]. cbn [decimateCount].
  destruct (decimateCount p + 1 >=? k) eqn:E2; [lia|]. reflexivity.
Qed.

Lemma ingest_reaches (p : RecordData) (k : Z) (now : T) (v : F) :
  decimateCount p + 1 = k ->
  ingest p k now v
  = insert (collecting p 0 fzero)
           {| time := now;
              value := if k =? 1 then v
                       else fdiv (fadd (decimateTotal p) v) (ofInt k) |}.
Proof.
  intros Heq. unfold ingest, decimate.
  destruct (decimateCount p <? k) eqn:E1; [|lia]. cbn [decimateCount].
  destruct (decimateCount p + 1 >=? k) eqn:E2; [|lia]. reflexivity.
Qed.

Lemma feed_below (k : Z) (samples : list (T * F)) (p : RecordData) :
  decimateCount p + Z.of_nat (length samples) < k ->
  feed p k samples
  = collecting p (decimateCount p + Z.of_nat (length samples))
               (fold_left fadd (map snd samples) (decimateTotal p)).
Proof.
  revert p. induction samples as [|s rest IH]; intros p Hlt.
  - cbn. rewrite Z.add_0_r. symmetry. apply collecting_self.
  - cbn [length] in Hlt. cbn [feed fold_left map].
    rewrite ingest_below by lia.
    fold (feed (collecting p (decimateCount p + 1) (fadd (decimateTotal p) (snd s)))
               k rest).
    rewrite IH by (cbn [decimateCount collecting]; lia).
    unfold collecting. cbn. f_equal. lia.
Qed.

Lemma feed_app (k : Z) (xs ys : list (T * F)) (p : RecordData) :
  feed p k (xs ++ ys) = feed (feed p k xs) k ys.
Proof. unfold feed. apply fold_left_app. Qed.

(** C5.  From an empty decimation state and with factor [k >= 1]: fewer
    than [k] raw samples store nothing (they are only summed up); exactly
    [k] raw samples store one measurement, time-stamped like the last raw
    sample, whose value is the sum of the [k] values divided by [k] (the
    last value itself when [k = 1]), and leave the decimation state zero. *)
Theorem decimation_stores_mean_of_group
    (p : RecordData) (k : Z) (samples : list (T * F)) :
  1 <= k ->
  decimateCount p = 0 -> decimateTotal p = fzero ->
  (Z.of_nat (length samples) < k ->
     feed p k samples
     = collecting p (Z.of_nat (length samples))
                  (fold_left fadd (map snd samples) fzero) /\
     contents (feed p k samples) = contents p) /\
  (Z.of_nat (length samples) = k ->
     let lastRaw := last samples (tzero, fzero) in
     let mean := if k =? 1 then snd lastRaw
                 else fdiv (fold_left fadd (map snd samples) fzero) (ofInt k) in
     let m := {| time := fst lastRaw; value := mean |} in
     feed p k samples = insert p m /\
     decimateCount (feed p k samples) = 0 /\
     decimateTotal (feed p k samples) = fzero /\
     (0 <= sampleCount p < maximumSamples p ->
        contents (feed p k samples) = contents p ++ [m])).
Proof.
  intros Hk Hc Ht. split.
  - intros Hlt. rewrite feed_below by lia. rewrite Hc, Ht. cbn. split; reflexivity.
  - intros Hlen lastRaw mean m.
    assert (Hfeed : feed p k samples = insert p m).
    { destruct (exists_last (l := samples)) as [front [x Hx]].
      { intros ->. cbn in Hlen. lia. }
      unfold m, mean, lastRaw. clear m mean lastRaw. subst samples.
      rewrite length_app in Hlen. cbn [length] in Hlen.
      rewrite feed_app, (feed_below k front p) by lia. cbn [feed fold_left].
      rewrite ingest_reaches by (cbn [decimateCount collecting]; lia).
      cbn [decimateTotal collecting buffer sampleCount maximumSamples].
      rewrite last_last, map_app, fold_left_app. cbn [map fold_left fst snd].
      rewrite Ht. f_equal.
      destruct p; cbn in *; subst; reflexivity. }
    rewrite Hfeed. repeat split.
    + unfold insert. destruct (_ <? _); cbn; assumption.
    + unfold insert. destruct (_ <? _); cbn; assumption.
    + apply contents_insert_room.
Qed.

(** C10, as the code has it.  When the pending count has already reached
    the factor of this cycle ([k <= decimateCount]), the raw value is not
    added to the running sum, and a measurement is stored all the same,
    time-stamped with this cycle's time: its value is the old running sum
    divided by [k] when [k >= 2], and the raw value itself when [k = 1]. *)
Theorem lowered_factor_skips_accumulation
    (p : RecordData) (k : Z) (now : T) (v : F) :
  1 <= k -> k <= decimateCount p ->
  decimate p k v = p /\
  ingest p k now v
  = insert (collecting p 0 fzero)
           {| time := now;
              value := if k =? 1 then v
                       else fdiv (decimateTotal p) (ofInt k) |}.
Proof.
  intros Hk Hle.
  assert (Hd : decimate p k v = p).
  { unfold decimate. destruct (decimateCount p <? k) eqn:E; [lia|reflexivity]. }
  split; [assumption|].
  unfold ingest. rewrite Hd.
  destruct (decimateCount p >=? k) eqn:E; [reflexivity|lia].
Qed.

(** ** What slopeIntersect computes and reads *)

Lemma slopeIntersect_eq (p : RecordData) (number : Z) :
  slopeIntersect p number
  = if number <? 1 then (fzero, fzero)
    else if number <? 2 then (fzero, value (buffer p (lastSlotOf p)))
    else quotients (windowSums p number).
Proof.
  unfold slopeIntersect, slopeIntersectReads.
  destruct (number <? 1); [reflexivity|].
  destruct (number <? 2); [reflexivity|].
  unfold bind, readBuffer, ret, windowSums, firstSlotOf, lastSlotOf.
  rewrite <- loop_result.
  destruct (loop p _ _ zeroSums) as [l acc]. reflexivity.
Qed.

Lemma bufferReads_eq (p : RecordData) (number : Z) :
  bufferReads p number
  = if number <? 1 then []
    else if number <? 2 then [lastSlotOf p]
    else lastSlotOf p
         :: flat_map (fun i => [i; i]) (slots (firstSlotOf p number) (lastSlotOf p)).
Proof.
  unfold bufferReads, slopeIntersectReads.
  destruct (number <? 1); [reflexivity|].
  destruct (number <? 2); [reflexivity|].
  unfold bind, readBuffer, ret, firstSlotOf, lastSlotOf.
  rewrite <- (loop_reads p (time (buffer p (sampleCount p - 1))) _ zeroSums).
  destruct (loop p _ _ zeroSums) as [l acc]. cbn. now rewrite app_nil_r.
Qed.

Lemma loopReads_eq (p : RecordData) (number : Z) :
  loopReads p number
  = flat_map (fun i => [i; i]) (slots (firstSlotOf p number) (lastSlotOf p)).
Proof. unfold loopReads. apply loop_reads. Qed.

Lemma firstSlotOf_nonneg (p : RecordData) (number : Z) : 0 <= firstSlotOf p number.
Proof. unfold firstSlotOf. destruct (_ <? 0) eqn:E; lia. Qed.

(** The reads of the summation loop never leave the stored measurements. *)
Lemma loop_reads_in_bounds (p : RecordData) (number : Z) :
  Forall (inBounds p) (loopReads p number).
Proof.
  rewrite loopReads_eq. apply Forall_forall. intros i Hi.
  apply in_flat_map in Hi. destruct Hi as [s [Hs Hi]].
  apply in_slots in Hs. pose proof (firstSlotOf_nonneg p number).
  unfold lastSlotOf in Hs. unfold inBounds.
  destruct Hi as [<-|[<-|[]]]; lia.
Qed.

(** X9.  All reads of [slopeIntersect] stay within the stored measurements
    exactly when nothing is read ([number < 1]) or the store is not empty:
    for [number >= 1] the slot [sampleCount - 1] is read in any case. *)
Lemma reads_in_bounds_iff (p : RecordData) (number : Z) :
  0 <= sampleCount p ->
  (Forall (inBounds p) (bufferReads p number)
   <-> number < 1 \/ 1 <= sampleCount p) /\
  (1 <= number -> In (sampleCount p - 1) (bufferReads p number)).
Proof.
  intros Hc. rewrite bufferReads_eq. unfold lastSlotOf.
  destruct (number <? 1) eqn:E1.
  { split; [|lia]. split; [left; lia|constructor]. }
  destruct (number <? 2) eqn:E2.
  { split; [|intros _; now left]. split.
    - intros Hall. inversion Hall as [|? ? Hin _]. unfold inBounds in Hin. lia.
    - intros [?|?]; [lia|]. repeat constructor; lia. }
  split; [|intros _; now left]. split.
  - intros Hall. inversion Hall as [|? ? Hin _]. unfold inBounds in Hin. lia.
  - intros [?|?]; [lia|]. constructor; [unfold inBounds; lia|].
    rewrite <- loopReads_eq. apply loop_reads_in_bounds.
Qed.

Lemma last_contents (p : RecordData) (d : Sample) :
  1 <= sampleCount p -> last (contents p) d = buffer p (sampleCount p - 1).
Proof.
  intros Hc. unfold contents. rewrite slots_snoc by lia.
  rewrite map_app. cbn [map]. apply last_last.
Qed.

(** C2, as the code has it.  The guards of [slopeIntersect] test the
    requested size [number], not the number of samples in the window:
    [number < 1] gives slope 0 and intercept 0; [number = 1] on a store
    that is not empty gives slope 0 and the newest sample's value; for
    [number >= 2] the least-squares quotients are formed over the window
    whatever the number of samples in it. *)
Theorem fit_guards_test_requested_size (p : RecordData) (number : Z) :
  (number < 1 -> slopeIntersect p number = (fzero, fzero)) /\
  (number = 1 -> 1 <= sampleCount p ->
     slopeIntersect p number = (fzero, value (last (contents p) zeroSample))) /\
  (2 <= number -> slopeIntersect p number = quotients (windowSums p number)).
Proof.
  rewrite slopeIntersect_eq. repeat split.
  - intros Hn. destruct (number <? 1) eqn:E; [reflexivity|lia].
  - intros -> Hc. cbn. now rewrite last_contents.
  - intros Hn. destruct (number <? 1) eqn:E1; [lia|].
    destruct (number <? 2) eqn:E2; [lia|]. reflexivity.
Qed.

(** ** Reset against a fresh store *)

Lemma sameStore_reset_fresh (p : RecordData) (heap : Z -> Sample) :
  sameStore (reset p) (freshData heap (maximumSamples p)).
Proof. repeat split. cbn. intros i Hi. lia. Qed.

Lemma sameStore_insert (p q : RecordData) (m : Sample) :
  sameStore p q -> sameStore (insert p m) (insert q m).
Proof.
  intros (Hs & Hm & Hc & Ht & Hb). unfold insert. rewrite <- Hs, <- Hm.
  destruct (sampleCount p <? maximumSamples p) eqn:E;
    repeat split; cbn; try assumption; try congruence.
  - intros i Hi. unfold store.
    destruct (i =? sampleCount p) eqn:Ei; [reflexivity|]. apply Hb. lia.
  - intros i Hi. unfold store, memmoveDown.
    destruct (i =? maximumSamples p - 1); [reflexivity|].
    destruct ((0 <=? i) && (i <? maximumSamples p - 1)) eqn:Er.
    + apply andb_true_iff in Er. apply Hb. lia.
    + apply Hb. lia.
Qed.

Lemma sameStore_decimate (p q : RecordData) (k : Z) (v : F) :
  sameStore p q -> sameStore (decimate p k v) (decimate q k v).
Proof.
  intros (Hs & Hm & Hc & Ht & Hb). unfold decimate. rewrite <- Hc.
  destruct (decimateCount p <? k); repeat split; cbn; try assumption;
    congruence.
Qed.

Lemma sameStore_clearDecimation (p q : RecordData) :
  sameStore p q -> sameStore (clearDecimation p) (clearDecimation q).
Proof. intros (Hs & Hm & Hc & Ht & Hb). repeat split; assumption. Qed.

Lemma sameStore_ingest (p q : RecordData) (k : Z) (now : T) (v : F) :
  sameStore p q -> sameStore (ingest p k now v) (ingest q k now v).
Proof.
  intros Hpq. unfold ingest.
  pose proof (sameStore_decimate p q k v Hpq) as Hd.
  pose proof Hd as (_ & _ & Hc & Ht & _).
  unfold measurementOf. rewrite <- Hc, <- Ht.
  destruct (decimateCount (decimate p k v) >=? k); [|assumption].
  apply sameStore_insert, sameStore_clearDecimation, Hd.
Qed.

Lemma sameStore_feedWith (samples : list (Z * (T * F))) (p q : RecordData) :
  sameStore p q -> sameStore (feedWith p samples) (feedWith q samples).
Proof.
  revert p q. induction samples as [|s rest IH]; intros p q Hpq; [assumption|].
  apply IH, sameStore_ingest, Hpq.
Qed.

Lemma sameStore_contents (p q : RecordData) :
  sameStore p q -> contents p = contents q.
Proof.
  intros (Hs & _ & _ & _ & Hb). unfold contents. rewrite <- Hs.
  apply map_slots_ext. intros i Hi. apply Hb. lia.
Qed.

Lemma sameStore_window (p q : RecordData) (number : Z) :
  sameStore p q -> window p number = window q number.
Proof.
  intros (Hs & _ & _ & _ & Hb). unfold window. rewrite <- Hs.
  apply map_slots_ext. intros i Hi. apply Hb.
  destruct (sampleCount p - number <? 0) eqn:E; lia.
Qed.

Lemma fold_step_ext (p q : RecordData) (t0 : T) (idx : list Z) (acc : Sums F) :
  (forall i, In i idx -> buffer p i = buffer q i) ->
  fold_left (step p t0) idx acc = fold_left (step q t0) idx acc.
Proof.
  revert acc. induction idx as [|i rest IH]; intros acc Hb; [reflexivity|].
  cbn [fold_left]. unfold step at 2 4. rewrite (Hb i) by now left.
  apply IH. intros j Hj. apply Hb. now right.
Qed.

Lemma sameStore_windowSums (p q : RecordData) (number : Z) :
  sameStore p q -> windowSums p number = windowSums q number.
Proof.
  intros (Hs & _ & _ & _ & Hb). unfold windowSums, firstSlotOf, lastSlotOf.
  rewrite <- Hs.
  destruct (Z_lt_le_dec (sampleCount p) 1) as [Hempty|Hsome].
  - rewrite !slots_empty by (destruct (sampleCount p - number <? 0) eqn:E; lia).
    reflexivity.
  - rewrite <- (Hb (sampleCount p - 1)) by lia.
    apply fold_step_ext. intros i Hi. apply in_slots in Hi. apply Hb.
    destruct (sampleCount p - number <? 0) eqn:E; lia.
Qed.

Lemma sameStore_slopeIntersect (p q : RecordData) (number : Z) :
  sameStore p q ->
  (number = 1 -> 1 <= sampleCount p) ->
  slopeIntersect p number = slopeIntersect q number.
Proof.
  intros Hpq Hn. rewrite !slopeIntersect_eq.
  destruct (number <? 1) eqn:E1; [reflexivity|].
  destruct (number <? 2) eqn:E2.
  - destruct Hpq as (Hs & _ & _ & _ & Hb). unfold lastSlotOf.
    rewrite <- Hs, (Hb (sampleCount p - 1)) by lia. reflexivity.
  - now rewrite (sameStore_windowSums p q number).
Qed.

Lemma maximumSamples_feedWith (samples : list (Z * (T * F))) (p : RecordData) :
  maximumSamples (feedWith p samples) = maximumSamples p.
Proof.
  revert p. induction samples as [|s rest IH]; intros p; [reflexivity|].
  cbn [feedWith fold_left]. fold (feedWith (ingest p (fst s) (fst (snd s)) (snd (snd s))) rest).
  now rewrite IH, maximumSamples_ingest.
Qed.

(** C8.  A store that has been reset, and a store freshly initialised with
    the same capacity, taken through the same raw samples (each with its
    decimation factor), agree on the length, the stored measurements, the
    decimation state, every window and every fit.  The one fit left out is
    that of a single point on an empty store, where [slopeIntersect] reads
    [buffer[-1]], which belongs to neither store.  Reset keeps the capacity
    and resetting twice is resetting once. *)
Theorem reset_is_like_fresh_store
    (p : RecordData) (heap : Z -> Sample) (samples : list (Z * (T * F))) :
  let c := maximumSamples p in
  let a := feedWith (reset p) samples in
  let b := feedWith (freshData heap c) samples in
  maximumSamples (reset p) = c /\
  reset (reset p) = reset p /\
  maximumSamples a = c /\ maximumSamples b = c /\
  sampleCount a = sampleCount b /\
  decimateCount a = decimateCount b /\
  decimateTotal a = decimateTotal b /\
  contents a = contents b /\
  (forall number, window a number = window b number) /\
  (forall number, number <> 1 \/ 1 <= sampleCount a ->
     slopeIntersect a number = slopeIntersect b number) /\
  (forall number threshold rateOfChangeFactor timeEstimateFactor,
     2 <= number ->
     estimate a number threshold rateOfChangeFactor timeEstimateFactor
     = estimate b number threshold rateOfChangeFactor timeEstimateFactor).
Proof.
  intros c a b.
  assert (Hab : sameStore a b)
    by apply sameStore_feedWith, sameStore_reset_fresh.
  assert (Hma : maximumSamples a = c).
  { unfold a. now rewrite maximumSamples_feedWith. }
  pose proof Hab as (Hs & Hm & Hc & Ht & Hb).
  repeat split; try assumption; try congruence.
  - now apply sameStore_contents.
  - intros number. now apply sameStore_window.
  - intros number Hn. apply sameStore_slopeIntersect; [assumption|lia].
  - intros number threshold rF tF Hn. unfold estimate.
    rewrite (sameStore_slopeIntersect a b number) by (assumption || lia).
    reflexivity.
Qed.

End Properties.

(** * Sums of rationals *)

Section RationalSums.

Open Scope Q_scope.

Lemma sumQ_cons (x : Q) (xs : list Q) : sumQ (x :: xs) = x + sumQ xs.
Proof. reflexivity. Qed.

Lemma inject_Z_succ (n : nat) :
  inject_Z (Z.of_nat (S n)) == inject_Z (Z.of_nat n) + 1.
Proof. rewrite Nat2Z.inj_succ. unfold Z.succ. now rewrite inject_Z_plus. Qed.

Lemma spread_cons (a x : Q) (xs : list Q) :
  spread a (x :: xs) = (a - x) * (a - x) + spread a xs.
Proof. reflexivity. Qed.

Lemma sumSquares_cons (x : Q) (xs : list Q) :
  sumSquares (x :: xs) = x * x + sumSquares xs.
Proof. reflexivity. Qed.

Lemma square_nonneg (x : Q) : 0 <= x * x.
Proof. unfold Qle, Qmult. cbn. rewrite Z.mul_1_r. apply Z.square_nonneg. Qed.

Lemma square_pos (x : Q) : ~ x == 0 -> 0 < x * x.
Proof.
  unfold Qlt, Qeq, Qmult. cbn. rewrite !Z.mul_1_r. intros Hx.
  pose proof (Z.square_nonneg (Qnum x)). nia.
Qed.

Lemma spread_nonneg (a : Q) (xs : list Q) : 0 <= spread a xs.
Proof.
  induction xs as [|x xs IH]; [apply Qle_refl|].
  rewrite spread_cons. pose proof (square_nonneg (a - x)). lra.
Qed.

Lemma spread_expand (a : Q) (xs : list Q) :
  spread a xs
  == inject_Z (Z.of_nat (length xs)) * (a * a) - 2 * a * sumQ xs + sumSquares xs.
Proof.
  induction xs as [|x xs IH]; [cbn; ring|].
  rewrite spread_cons, sumSquares_cons, sumQ_cons. cbn [length].
  rewrite inject_Z_succ, IH. ring.
Qed.

Lemma deltaOf_cons (a : Q) (xs : list Q) :
  deltaOf (a :: xs) == deltaOf xs + spread a xs.
Proof.
  rewrite spread_expand. unfold deltaOf.
  rewrite sumSquares_cons, sumQ_cons. cbn [length].
  rewrite inject_Z_succ. ring.
Qed.

Lemma deltaOf_nonneg (xs : list Q) : 0 <= deltaOf xs.
Proof.
  induction xs as [|x xs IH].
  - unfold deltaOf. cbn. apply Qle_lteq. right. ring.
  - rewrite deltaOf_cons. pose proof (spread_nonneg x xs). lra.
Qed.


End RationalSums.

(** * The fit in binary64 when nothing is rounded *)

Section Binary64Fit.

Open Scope Q_scope.

#[local] Abbreviation Store64 := (RecordData float epicsTimeStamp).

(** ** Binary64 values and the rationals they stand for *)

Lemma represents_proper (x : float) (q q' : Q) :
  represents x q -> q == q' -> represents x q'.
Proof.
  unfold represents, exactly. destruct (exactValue x) as [v|]; [|discriminate].
  rewrite !Qeq_bool_iff. intros H1 H2. now rewrite H1.
Qed.

Lemma represents_value (x : float) (q : Q) : represents x q -> valueQ x == q.
Proof.
  unfold represents, exactly, valueQ. destruct (exactValue x) as [v|]; [|discriminate].
  now rewrite Qeq_bool_iff.
Qed.

Lemma represents_valueQ (x : float) (v : Q) :
  exactValue x = Some v -> represents x (valueQ x).
Proof.
  unfold represents, exactly, valueQ. intros ->. apply Qeq_bool_iff. reflexivity.
Qed.

(** An operation that did not round commutes with [represents]. *)
Lemma exactOp_sound (fop : float -> float -> float) (qop : Q -> Q -> Q)
    (x y : float) (a b : Q) :
  Proper (Qeq ==> Qeq ==> Qeq) qop ->
  exactOp fop qop x y = true -> represents x a -> represents y b ->
  represents (fop x y) (qop a b).
Proof.
  intros Hp. unfold exactOp, represents at 1 2, exactly at 2 3.
  destruct (exactValue x) as [u|]; [|discriminate].
  destruct (exactValue y) as [v|]; [|discriminate].
  rewrite !Qeq_bool_iff. intros Hop Ha Hb.
  apply (represents_proper _ _ _ Hop). now apply Hp.
Qed.

(** The operands of an operation that did not round are finite. *)
Lemma exactOp_right (fop : float -> float -> float) (qop : Q -> Q -> Q)
    (x y : float) :
  exactOp fop qop x y = true -> represents y (valueQ y).
Proof.
  unfold exactOp. destruct (exactValue x) as [u|]; [|discriminate].
  destruct (exactValue y) as [v|] eqn:E; [|discriminate].
  intros _. now apply (represents_valueQ y v).
Qed.

(** ** The loop and the quotients *)

(** When no iteration rounds, the four sums of the loop stand for the
    sums of the exact time offsets and values. *)
Lemma loop_exact (p : Store64) (t0 : epicsTimeStamp) (idx : list Z) :
  let X := fun i => secondsBetween (time (buffer p i)) t0 in
  let Y := fun i => valueQ (value (buffer p i)) in
  forall (acc : Sums float) (sx sy sxx sxy : Q),
  loopExact p t0 idx acc = true ->
  representsSums acc sx sy sxx sxy ->
  representsSums (fold_left (step p t0) idx acc)
    (sx + sumQ (map X idx)) (sy + sumQ (map Y idx))
    (sxx + sumQ (map (fun i => X i * X i) idx))
    (sxy + sumQ (map (fun i => X i * Y i) idx)) /\
  actual_size (fold_left (step p t0) idx acc)
  = (actual_size acc + Z.of_nat (length idx))%Z.
Proof.
  intros X Y. induction idx as [|i rest IH]; intros acc sx sy sxx sxy Hloop Hacc.
  - cbn [fold_left map length sumQ fold_right]. split; [|cbn; lia].
    destruct Hacc as (Hx & Hy & Hxx & Hxy).
    split; [|split; [|split]];
      [apply (represents_proper _ _ _ Hx)|apply (represents_proper _ _ _ Hy)
      |apply (represents_proper _ _ _ Hxx)|apply (represents_proper _ _ _ Hxy)];
      ring.
  - cbn [loopExact] in Hloop. apply andb_prop in Hloop.
    destruct Hloop as [Hstep Hrest].
    unfold stepExact in Hstep. cbv zeta in Hstep.
    apply andb_prop in Hstep. destruct Hstep as [Hstep Exy].
    apply andb_prop in Hstep. destruct Hstep as [Hstep Emxy].
    apply andb_prop in Hstep. destruct Hstep as [Hstep Exx].
    apply andb_prop in Hstep. destruct Hstep as [Hstep Emxx].
    apply andb_prop in Hstep. destruct Hstep as [Hstep Ey].
    apply andb_prop in Hstep. destruct Hstep as [Ediff Ex].
    destruct Hacc as (Hx & Hy & Hxx & Hxy).
    assert (Hxi : represents (epicsTimeDiffInSeconds (time (buffer p i)) t0) (X i))
      by exact Ediff.
    assert (Hyi : represents (value (buffer p i)) (Y i))
      by exact (exactOp_right _ _ _ _ Ey).
    destruct (IH (step p t0 acc i) (sx + X i) (sy + Y i) (sxx + X i * X i)
                 (sxy + X i * Y i) Hrest) as ((Rx & Ry & Rxx & Rxy) & Rn).
    { unfold step, accumulate, representsSums. cbn [x_sum y_sum xx_sum xy_sum].
      split; [|split; [|split]].
      - exact (exactOp_sound _ _ _ _ _ _ Qplus_comp Ex Hx Hxi).
      - exact (exactOp_sound _ _ _ _ _ _ Qplus_comp Ey Hy Hyi).
      - exact (exactOp_sound _ _ _ _ _ _ Qplus_comp Exx Hxx
                 (exactOp_sound _ _ _ _ _ _ Qmult_comp Emxx Hxi Hxi)).
      - exact (exactOp_sound _ _ _ _ _ _ Qplus_comp Exy Hxy
                 (exactOp_sound _ _ _ _ _ _ Qmult_comp Emxy Hxi Hyi)). }
    cbn [fold_left map length]. rewrite !sumQ_cons. split.
    + split; [|split; [|split]];
        [apply (represents_proper _ _ _ Rx)|apply (represents_proper _ _ _ Ry)
        |apply (represents_proper _ _ _ Rxx)|apply (represents_proper _ _ _ Rxy)];
        ring.
    + rewrite Rn. unfold step, accumulate. cbn [actual_size]. lia.
Qed.

(** When no operation of lines 247-249 rounds, the two quotients stand
    for the quotients of the rationals. *)
Lemma quotients_exact (acc : Sums float) (sx sy sxx sxy : Q) :
  quotientsExact acc = true ->
  representsSums acc sx sy sxx sxy ->
  let n := inject_Z (actual_size acc) in
  represents (fst (quotients acc)) ((n * sxy - sx * sy) / (n * sxx - sx * sx)) /\
  represents (snd (quotients acc)) ((sy * sxx - sx * sxy) / (n * sxx - sx * sx)).
Proof.
  intros Hq (Hx & Hy & Hxx & Hxy) n.
  unfold quotientsExact in Hq. cbv zeta in Hq.
  apply andb_prop in Hq. destruct Hq as [Hq Edi].
  apply andb_prop in Hq. destruct Hq as [Hq Esi].
  apply andb_prop in Hq. destruct Hq as [Hq Exxy].
  apply andb_prop in Hq. destruct Hq as [Hq Eyxx].
  apply andb_prop in Hq. destruct Hq as [Hq Eds].
  apply andb_prop in Hq. destruct Hq as [Hq Ess].
  apply andb_prop in Hq. destruct Hq as [Hq Exy].
  apply andb_prop in Hq. destruct Hq as [Hq Enxy].
  apply andb_prop in Hq. destruct Hq as [Hq Esd].
  apply andb_prop in Hq. destruct Hq as [Hq Exx].
  apply andb_prop in Hq. destruct Hq as [En Enxx].
  assert (Hn : represents (Z2F (actual_size acc)) n) by exact En.
  pose proof (exactOp_sound _ _ _ _ _ _ Qminus_comp Esd
                (exactOp_sound _ _ _ _ _ _ Qmult_comp Enxx Hn Hxx)
                (exactOp_sound _ _ _ _ _ _ Qmult_comp Exx Hx Hx)) as Hdelta.
  unfold quotients. cbn [fst snd]. split.
  - exact (exactOp_sound _ _ _ _ _ _ Qdiv_comp Eds
             (exactOp_sound _ _ _ _ _ _ Qminus_comp Ess
                (exactOp_sound _ _ _ _ _ _ Qmult_comp Enxy Hn Hxy)
                (exactOp_sound _ _ _ _ _ _ Qmult_comp Exy Hx Hy))
             Hdelta).
  - exact (exactOp_sound _ _ _ _ _ _ Qdiv_comp Edi
             (exactOp_sound _ _ _ _ _ _ Qminus_comp Esi
                (exactOp_sound _ _ _ _ _ _ Qmult_comp Eyxx Hy Hxx)
                (exactOp_sound _ _ _ _ _ _ Qmult_comp Exxy Hx Hxy))
             Hdelta).
Qed.

(** When nothing rounds, the slope and the intercept returned stand for
    the least-squares quotients of the exact time offsets and values. *)
Lemma exact_fit (p : Store64) (number : Z) :
  (2 <= number)%Z -> noRounding p number = true ->
  let idx := slots (firstSlotOf p number) (lastSlotOf p) in
  let X := fun i => secondsBetween (time (buffer p i))
                                   (time (buffer p (lastSlotOf p))) in
  let Y := fun i => valueQ (value (buffer p i)) in
  let n := inject_Z (Z.of_nat (length idx)) in
  let sx := sumQ (map X idx) in
  let sy := sumQ (map Y idx) in
  let sxx := sumQ (map (fun i => X i * X i) idx) in
  let sxy := sumQ (map (fun i => X i * Y i) idx) in
  represents (fst (slopeIntersect p number))
             ((n * sxy - sx * sy) / (n * sxx - sx * sx)) /\
  represents (snd (slopeIntersect p number))
             ((sy * sxx - sx * sxy) / (n * sxx - sx * sx)).
Proof.
  intros Hn Hexact idx X Y n sx sy sxx sxy.
  unfold noRounding in Hexact. apply andb_prop in Hexact.
  destruct Hexact as [Hloop Hquot].
  rewrite slopeIntersect_eq.
  destruct (number <? 1)%Z eqn:E1; [lia|].
  destruct (number <? 2)%Z eqn:E2; [lia|].
  fold idx in Hloop.
  destruct (loop_exact p (time (buffer p (lastSlotOf p))) idx zeroSums 0 0 0 0 Hloop)
    as ((Rx & Ry & Rxx & Rxy) & Rn).
  { repeat split; vm_compute; reflexivity. }
  fold X Y in Rx, Ry, Rxx, Rxy.
  unfold windowSums in *. fold idx in Hquot, Rn |- *.
  set (r := fold_left _ idx zeroSums) in *.
  cbn [zeroSums actual_size] in Rn. rewrite Z.add_0_l in Rn.
  assert (Hr : representsSums r sx sy sxx sxy).
  { split; [|split; [|split]];
      [apply (represents_proper _ _ _ Rx)|apply (represents_proper _ _ _ Ry)
      |apply (represents_proper _ _ _ Rxx)|apply (represents_proper _ _ _ Rxy)];
      exact (Qplus_0_l _). }
  destruct (quotients_exact r sx sy sxx sxy Hquot Hr) as (Hs & Hi).
  cbv zeta in Hs, Hi. rewrite Rn in Hs, Hi. split; assumption.
Qed.

(** ** Samples on a line *)



Lemma secondsBetween_diff (a b c : epicsTimeStamp) :
  secondsBetween a c - secondsBetween b c == secondsBetween a b.
Proof.
  unfold secondsBetween, Qeq, Qminus, Qplus, Qopp. cbn [Qnum Qden].
  rewrite !Pos2Z.inj_mul. ring.
Qed.


End Binary64Fit.

(** * Concrete cycles in binary64 *)

(** Two floats are different when a test tells them apart. *)
Lemma float_neq (x y : float) : PrimFloat.eqb x x = true -> PrimFloat.eqb x y = false -> x <> y.
Proof. intros Hx Hxy ->. rewrite Hx in Hxy. discriminate. Qed.

(** The first end-to-end scenario of the specification: capacity 10,
    decimation 1, window 5, threshold 100, values [2 * t] at [t = 0 .. 9]. *)
Example scenario_linear_ramp :
  vala (val full64) = 10 /\
  valb (val full64) = 2%float /\
  valc (val full64) = 41%float.
Proof. vm_compute. repeat split. Qed.

(** Decimation factor 3, raw values 1,2,3 then 4,5,6: the store ends with
    the two measurements 2 and 5. *)
Example scenario_decimation_by_three :
  map value (contents (feed empty64 3
    [(tsec 1, 1%float); (tsec 2, 2%float); (tsec 3, 3%float);
     (tsec 4, 4%float); (tsec 5, 5%float); (tsec 6, 6%float)]))
  = [2%float; 5%float].
Proof. vm_compute. reflexivity. Qed.

(** ** The properties at concrete inputs *)




(** With one sample stored and two requested the quotients are 0/0; with
    an empty store as well. *)
Lemma fit_of_short_window_is_nan :
  window oneSample64 2 = [sample64 100 5%float] /\
  slopeIntersect oneSample64 2 = (PrimFloat.nan, PrimFloat.nan) /\
  slopeIntersect oneSample64 2 <> (0%float, 5%float) /\
  window empty64 2 = [] /\
  slopeIntersect empty64 2 = (PrimFloat.nan, PrimFloat.nan) /\
  slopeIntersect empty64 2 <> (0%float, 0%float).
Proof.
  repeat split; try (vm_compute; reflexivity); intros H.
  - apply (f_equal (fun r => PrimFloat.is_nan (snd r))) in H. vm_compute in H.
    discriminate.
  - apply (f_equal (fun r => PrimFloat.is_nan (snd r))) in H. vm_compute in H.
    discriminate.
Qed.

(** In binary64 a fit over two or more points on an empty store is 0/0. *)
Lemma fit_on_empty_store_is_nan
    (p : RecordData float epicsTimeStamp) (number : Z) :
  sampleCount p <= 0 -> 2 <= number ->
  slopeIntersect p number = (PrimFloat.nan, PrimFloat.nan).
Proof.
  intros Hc Hn. rewrite slopeIntersect_eq.
  destruct (number <? 1) eqn:E1; [lia|].
  destruct (number <? 2) eqn:E2; [lia|].
  unfold windowSums. rewrite slots_empty.
  - vm_compute. reflexivity.
  - pose proof (firstSlotOf_nonneg p number). unfold lastSlotOf. lia.
Qed.

Lemma fit_guards_test_requested_size_witness :
  slopeIntersect oneSample64 0 = (0%float, 0%float) /\
  slopeIntersect oneSample64 1 = (0%float, 5%float).
Proof.
  destruct (fit_guards_test_requested_size oneSample64 0) as (H0 & _ & _).
  destruct (fit_guards_test_requested_size oneSample64 1) as (_ & H1 & _).
  split; [apply H0; lia|apply H1; [reflexivity|cbn; lia]].
Defined.

(** A NaN input under severity INVALID: the cycle returns 0, not a
    negative status. *)
Lemma nan_with_invalid_severity_returns_zero :
  isNanOrInfinite (fld_a (fld nanInvalid64)) = true /\
  fst (RattleProcess (tsec 0) nanInvalid64) = 0 /\
  ~ fst (RattleProcess (tsec 0) nanInvalid64) < 0.
Proof. vm_compute. repeat split; discriminate. Qed.

Lemma non_finite_input_rejected_witness :
  snd (RattleProcess (tsec 0) nanValid64) = nanValid64 /\
  fst (RattleProcess (tsec 0) nanValid64) = -1.
Proof.
  destruct (non_finite_input_rejected (tsec 0) nanValid64)
    as (Hsame & Hneg & _); [reflexivity|].
  split; [exact Hsame|apply Hneg; vm_compute; reflexivity].
Defined.

Lemma invalid_severity_skips_cycle_witness :
  RattleProcess (tsec 10) resetInvalid64 = (0, resetInvalid64) /\
  sampleCount (storeOf resetInvalid64) = 10.
Proof.
  split; [|vm_compute; reflexivity].
  apply (invalid_severity_skips_cycle (tsec 10) resetInvalid64
           (storeOf resetInvalid64));
    [vm_compute; reflexivity|vm_compute; discriminate].
Defined.

Lemma outputs_are_scaled_fit_witness :
  let prec := setFields full64 (fields64 20%float 0 1 0) in
  let prec' := snd (RattleProcess (tsec 10) prec) in
  fst (RattleProcess (tsec 10) prec) = 0 /\
  vala (val prec') = 10 /\
  rateOut (val prec') 0 = 2%float /\
  etaOut (val prec') 0 = 40%float.
Proof.
  intros prec prec'. unfold prec'.
  destruct (outputs_are_scaled_fit (tsec 10) prec (storeOf prec))
    as (Hst & _ & Hcount & Hslots);
    [vm_compute; reflexivity|vm_compute; reflexivity|vm_compute; reflexivity|].
  destruct (Hslots 0%nat) as (_ & Hrate & Heta); [lia|].
  split; [exact Hst|].
  split; [rewrite Hcount; vm_compute; reflexivity|].
  split; [rewrite Hrate|rewrite Heta]; vm_compute; reflexivity.
Defined.

Lemma store_never_exceeds_capacity_witness :
  let p := storeOf full64 in
  let m := sample64 10 20%float in
  maximumSamples p = 10 /\
  sampleCount p = 10 /\
  sampleCount (insert p m) = 10 /\
  contents (insert p m) = tl (contents p) ++ [m].
Proof.
  intros p m.
  destruct (store_never_exceeds_capacity
              (heapOf (sample64 0 0%float)) blank64 tenCycles p)
    as (Hcap & _ & Hfull); [vm_compute; reflexivity|].
  destruct (Hfull m) as (Hlen & _ & Hcontents); [vm_compute; reflexivity|].
  split; [rewrite Hcap; vm_compute; reflexivity|].
  split; [vm_compute; reflexivity|].
  split; [rewrite Hlen; vm_compute; reflexivity|exact Hcontents].
Defined.

Lemma decimation_stores_mean_of_group_witness :
  let samples := [(tsec 1, 1%float); (tsec 2, 2%float); (tsec 3, 3%float)] in
  contents (feed empty64 3 (firstn 2 samples)) = [] /\
  contents (feed empty64 3 samples) = [sample64 3 2%float] /\
  decimateCount (feed empty64 3 samples) = 0.
Proof.
  intros samples.
  destruct (decimation_stores_mean_of_group empty64 3 (firstn 2 samples))
    as ((_ & Hnone) & _); [lia|reflexivity|reflexivity|cbn; lia|].
  destruct (decimation_stores_mean_of_group empty64 3 samples)
    as (_ & Hgroup); [lia|reflexivity|reflexivity|].
  destruct Hgroup as (_ & Hcount & _ & Hcontents); [reflexivity|].
  split; [rewrite Hnone; vm_compute; reflexivity|].
  split; [|exact Hcount].
  rewrite Hcontents by (cbn; lia). vm_compute. reflexivity.
Defined.

(** The factor lowered from 3 to 1 with one raw value pending: the stored
    value is the new raw value 7, not the old running sum 10 over 1. *)
Lemma factor_lowered_to_one_stores_raw_value :
  let q := ingest pending64 1 (tsec 2) 7%float in
  decimateCount pending64 = 1 /\
  decimateTotal pending64 = 10%float /\
  contents q = [sample64 2 7%float] /\
  fdiv (decimateTotal pending64) (ofInt 1) = 10%float /\
  value (last (contents q) zeroSample)
  <> fdiv (decimateTotal pending64) (ofInt 1).
Proof.
  repeat split; try (vm_compute; reflexivity).
  apply float_neq; vm_compute; reflexivity.
Qed.

Lemma lowered_factor_skips_accumulation_witness :
  let p := feed empty64 3 [(tsec 1, 10%float); (tsec 2, 20%float)] in
  decimate p 2 7%float = p /\
  contents (ingest p 2 (tsec 3) 7%float) = [sample64 3 15%float].
Proof.
  intros p.
  destruct (lowered_factor_skips_accumulation p 2 (tsec 3) 7%float)
    as (Hsame & Hemit); [lia|vm_compute; discriminate|].
  split; [exact Hsame|]. rewrite Hemit. vm_compute. reflexivity.
Defined.

(** C9 at an empty store with two points requested: [slopeIntersect]
    reads [buffer[-1]] (the time [t0] of line 235), outside the stored
    measurements and outside the array.  This is what the first cycle of a
    record with decimation factor 2 does: nothing is stored yet when the
    four fits are made. *)
Theorem fit_on_empty_store_reads_before_buffer :
  let prec' := snd (RattleProcess (tsec 0) (setFields init64 (fields64 1%float 0 2 0))) in
  let q := storeOf prec' in
  sampleCount empty64 = 0 /\
  bufferReads empty64 2 = [-1] /\
  ~ inBounds empty64 (-1) /\
  loopReads empty64 2 = [] /\
  sampleCount q = 0 /\
  bufferReads q (numberSamples prec' (maximumSamples q) 0) = [-1].
Proof.
  repeat split; try (vm_compute; reflexivity).
  unfold inBounds. cbn. lia.
Qed.

Lemma reads_in_bounds_iff_witness :
  Forall (inBounds oneSample64) (bufferReads oneSample64 2) /\
  In 0 (bufferReads oneSample64 2).
Proof.
  destruct (reads_in_bounds_iff oneSample64 2) as (Hiff & Hlast);
    [cbn; lia|].
  split; [apply Hiff; right; cbn; lia|apply Hlast; lia].
Defined.

(** * Further properties of the record functions *)

Section RecordProperties.

Context {F T : Type} `{HostFT : Host F T}.

#[local] Abbreviation Sample := (Sample F T).
#[local] Abbreviation RecordData := (RecordData F T).
#[local] Abbreviation aSubRecord := (aSubRecord F T).

(** ** Set-up *)

Lemma sameFtype_eq (a b : menuFtype) : sameFtype a b = true <-> a = b.
Proof. destruct a, b; cbn; split; intros H; try reflexivity; discriminate. Qed.

Lemma fypeName_inj (a b : menuFtype) : fypeName a = fypeName b -> a = b.
Proof. destruct a, b; cbn; intros H; try reflexivity; discriminate. Qed.

Lemma isDOUBLE_sameFtype (a : menuFtype) : isDOUBLE a = sameFtype a menuFtypeDOUBLE.
Proof. now destruct a. Qed.

Lemma isLONG_sameFtype (a : menuFtype) : isLONG a = sameFtype a menuFtypeLONG.
Proof. now destruct a. Qed.

Lemma CHECK_FIELD_TYPE_names (ftz kind : menuFtype) (fname : String.string) (r : TypeReport) :
  CHECK_FIELD_TYPE ftz fname kind = Some r ->
  reportField r = fname /\ reportActual r <> reportExpected r.
Proof.
  unfold CHECK_FIELD_TYPE. destruct (sameFtype ftz kind) eqn:E; [discriminate|].
  intros [= <-]. cbn. split; [reflexivity|]. intros Hn.
  apply fypeName_inj, sameFtype_eq in Hn. congruence.
Qed.

Lemma firstReport_in (checks : list (option TypeReport)) (r : TypeReport) :
  firstReport checks = Some r -> In (Some r) checks.
Proof.
  induction checks as [|[c|] rest IH]; cbn; [discriminate| |].
  - intros [= ->]. now left.
  - intros H. right. now apply IH.
Qed.

(** X1.  [RattleInit] accepts the record exactly when no type check reports; a
    report leads to status -1 with [pact] set and no private data, and the
    two type names it carries are different. *)
Theorem init_fails_exactly_on_a_type_report (heap : Z -> Sample) (prec : aSubRecord) :
  (initReport (ft prec) = None <-> fst (RattleInit heap prec) = 0) /\
  forall r, initReport (ft prec) = Some r ->
    fst (RattleInit heap prec) = -1 /\
    pact (snd (RattleInit heap prec)) = 1 /\
    dpvt (snd (RattleInit heap prec)) = None /\
    reportActual r <> reportExpected r.
Proof.
  assert (Hok : fieldTypesOk (ft prec) = true <-> initReport (ft prec) = None).
  { unfold fieldTypesOk, initReport, CHECK_FIELD_TYPE.
    rewrite !isDOUBLE_sameFtype, !isLONG_sameFtype.
    repeat match goal with
    | |- context [sameFtype ?a ?b] =>
        destruct (sameFtype a b); cbn [firstReport andb];
        [|split; discriminate]
    end.
    split; reflexivity. }
  unfold RattleInit. change (ft (set_dpvt prec None)) with (ft prec).
  destruct (fieldTypesOk (ft prec)) eqn:E; cbn [negb fst snd].
  - split; [split; [reflexivity|intros _; now apply Hok]|].
    intros r Hr. rewrite (proj1 Hok eq_refl) in Hr. discriminate.
  - split.
    + split; [intros Hn; apply Hok in Hn; discriminate|discriminate].
    + intros r Hr. repeat split.
      apply firstReport_in in Hr. cbn [In] in Hr.
      repeat (destruct Hr as [Hr|Hr];
              [now apply CHECK_FIELD_TYPE_names in Hr|]).
      destruct Hr.
Qed.

Lemma run_cons (prec : aSubRecord) (c : T * Fields F) (cycles : list (T * Fields F)) :
  run prec (c :: cycles) = run (cycle prec c) cycles.
Proof. reflexivity. Qed.

Lemma run_snoc (prec : aSubRecord) (cycles : list (T * Fields F)) (c : T * Fields F) :
  run prec (cycles ++ [c]) = cycle (run prec cycles) c.
Proof. unfold run. now rewrite fold_left_app. Qed.

(** The field types and [pact] are never written by a cycle. *)
Lemma cycle_keeps_types (prec : aSubRecord) (c : T * Fields F) :
  ft (cycle prec c) = ft prec /\ pact (cycle prec c) = pact prec.
Proof.
  unfold cycle, RattleProcess. cbn [dpvt setFields].
  destruct (dpvt prec); [|now split].
  destruct (_ >=? _); [now split|].
  destruct (isNanOrInfinite _); now split.
Qed.

Lemma run_keeps_types (cycles : list (T * Fields F)) (prec : aSubRecord) :
  ft (run prec cycles) = ft prec /\ pact (run prec cycles) = pact prec.
Proof.
  revert prec. induction cycles as [|c rest IH]; intros prec; [now split|].
  rewrite run_cons. destruct (IH (cycle prec c)) as [-> ->].
  apply cycle_keeps_types.
Qed.

(** X2.  After a failed [RattleInit] every cycle is refused with status -1,
    and no sequence of cycles brings the record back to life or writes an
    output. *)
Theorem failed_init_disables_record
    (heap : Z -> Sample) (prec : aSubRecord) (cycles : list (T * Fields F)) :
  fieldTypesOk (ft prec) = false ->
  let dead := run (snd (RattleInit heap prec)) cycles in
  dpvt dead = None /\ pact dead = 1 /\ val dead = val prec /\
  forall now v, RattleProcess now (setFields dead v) = (-1, setFields dead v).
Proof.
  intros Hbad dead.
  assert (Hinit : dpvt (snd (RattleInit heap prec)) = None /\
                  pact (snd (RattleInit heap prec)) = 1 /\
                  val (snd (RattleInit heap prec)) = val prec).
  { unfold RattleInit. change (ft (set_dpvt prec None)) with (ft prec).
    rewrite Hbad. cbn. repeat split. }
  assert (Hrun : forall cs r, dpvt r = None ->
                   dpvt (run r cs) = None /\ val (run r cs) = val r).
  { induction cs as [|c rest IH]; intros r Hr; [now split|].
    rewrite run_cons.
    assert (Hc : dpvt (cycle r c) = None /\ val (cycle r c) = val r).
    { unfold cycle, RattleProcess. cbn [dpvt setFields]. rewrite Hr. cbn.
      now split. }
    destruct Hc as [Hd Hv]. destruct (IH _ Hd) as [Hd' Hv'].
    split; [assumption|congruence]. }
  destruct Hinit as (Hd & Hp & Hv).
  destruct (Hrun cycles _ Hd) as [Hd' Hv'].
  repeat split.
  - exact Hd'.
  - unfold dead. now rewrite (proj2 (run_keeps_types cycles _)).
  - unfold dead. congruence.
  - intros now v. unfold RattleProcess. cbn [dpvt setFields].
    fold dead in Hd'. now rewrite Hd'.
Qed.

(** ** Window sizes *)

Lemma MAX_max (a b : Z) : MAX a b = Z.max a b.
Proof. unfold MAX. destruct (a >=? b) eqn:E; lia. Qed.

Lemma MIN_min (a b : Z) : MIN a b = Z.min a b.
Proof. unfold MIN. destruct (a <=? b) eqn:E; lia. Qed.

Lemma LIMIT_clamp (x low high : Z) : LIMIT x low high = Z.max low (Z.min x high).
Proof. unfold LIMIT. now rewrite MAX_max, MIN_min. Qed.

Lemma numberSamples_eq (prec : aSubRecord) (maxS : Z) (j : nat) :
  numberSamples prec maxS j = LIMIT (windowRequest prec j) 2 maxS.
Proof. destruct j as [|[|[|j]]]; reflexivity. Qed.

Lemma initCapacity_covers (prec : aSubRecord) (n : Z) :
  In n (initRequests prec) -> n <= 32768 -> n <= initCapacity prec.
Proof.
  unfold initRequests, initCapacity. cbv zeta.
  rewrite LIMIT_clamp, !MAX_max. cbn [In].
  intros [<-|[<-|[<-|[<-|[<-|[]]]]]] Hn; lia.
Qed.

(** X3.  For a record set up by [RattleInit], in every later cycle: the size
    used for a fit lies between 2 and the capacity; a request between 2 and
    the capacity is used as it is, a smaller one becomes 2 and a larger one
    the capacity; and the capacity covers every size that was in the record
    at set-up, up to 32768. *)
Theorem window_sizes_are_clamped_to_capacity
    (heap : Z -> Sample) (prec0 : aSubRecord) (cycles : list (T * Fields F))
    (p : RecordData) :
  dpvt (run (snd (RattleInit heap prec0)) cycles) = Some p ->
  (forall n, In n (initRequests prec0) -> n <= 32768 -> n <= maximumSamples p) /\
  forall (prec : aSubRecord) (j : nat),
    let request := windowRequest prec j in
    let number := numberSamples prec (maximumSamples p) j in
    2 <= number <= maximumSamples p /\
    (2 <= request <= maximumSamples p -> number = request) /\
    (request < 2 -> number = 2) /\
    (maximumSamples p < request -> number = maximumSamples p).
Proof.
  intros Hd.
  pose proof (initCapacity_range prec0) as Hr.
  destruct (recordBounded_run (initCapacity prec0) cycles _ ltac:(lia)
              (recordBounded_init heap prec0) p Hd) as [Hm _].
  split.
  - intros n Hin Hn. rewrite Hm. now apply initCapacity_covers.
  - intros prec j request number. unfold number.
    rewrite numberSamples_eq, LIMIT_clamp. fold request. lia.
Qed.

(** ** Memory around the buffer *)

Lemma setIn_insert (heap : Z -> Sample) (c : Z) (p : RecordData) (m : Sample) :
  1 <= c -> setIn heap c p -> setIn heap c (insert p m).
Proof.
  intros Hc [Hb Hout]. split; [now apply bounded_insert|].
  destruct Hb as [Hm Hs]. intros i Hi. unfold insert.
  destruct (sampleCount p <? maximumSamples p) eqn:E; cbn [buffer].
  - unfold store. destruct (i =? sampleCount p) eqn:Ei; [lia|]. now apply Hout.
  - unfold store, memmoveDown.
    destruct (i =? maximumSamples p - 1) eqn:Ei; [lia|].
    destruct ((0 <=? i) && (i <? maximumSamples p - 1)) eqn:Er.
    + apply andb_true_iff in Er. lia.
    + now apply Hout.
Qed.

Lemma setIn_ingest (heap : Z -> Sample) (c : Z) (p : RecordData)
    (k : Z) (now : T) (v : F) :
  1 <= c -> setIn heap c p -> setIn heap c (ingest p k now v).
Proof.
  intros Hc Hp. unfold ingest.
  assert (Hd : setIn heap c (decimate p k v)).
  { unfold decimate. destruct (decimateCount p <? k); [|assumption].
    destruct Hp as [[Hm Hs] Hout]. repeat split; cbn; try assumption; lia. }
  destruct (decimateCount (decimate p k v) >=? k); [|assumption].
  apply setIn_insert; [assumption|].
  destruct Hd as [[Hm Hs] Hout]. repeat split; cbn; try assumption; lia.
Qed.

Lemma recordSetIn_init (heap : Z -> Sample) (prec : aSubRecord) :
  recordSetIn heap (initCapacity prec) (snd (RattleInit heap prec)).
Proof.
  intros p. unfold RattleInit.
  destruct (negb (fieldTypesOk (ft (set_dpvt prec None)))); cbn; [discriminate|].
  intros [= <-]. pose proof (initCapacity_range prec) as Hr.
  change (initCapacity (set_dpvt prec None)) with (initCapacity prec).
  repeat split; cbn; try lia.
  intros i Hi. unfold callocBuffer.
  destruct ((0 <=? i) && (i <? initCapacity prec)) eqn:E; [|reflexivity].
  apply andb_true_iff in E. lia.
Qed.

Lemma recordSetIn_cycle (heap : Z -> Sample) (c : Z) (prec : aSubRecord)
    (cy : T * Fields F) :
  1 <= c -> recordSetIn heap c prec -> recordSetIn heap c (cycle prec cy).
Proof.
  intros Hc Hp q. unfold cycle, RattleProcess. cbn [dpvt setFields].
  destruct (dpvt prec) as [p|] eqn:Hd; [|cbn; rewrite Hd; discriminate].
  specialize (Hp p Hd).
  destruct (_ >=? epicsSevInvalid); [cbn; rewrite Hd; now intros [= <-]|].
  destruct (isNanOrInfinite _); [cbn; rewrite Hd; now intros [= <-]|].
  cbn. intros [= <-]. apply setIn_ingest; [assumption|].
  destruct (fld_r _ =? 1); [|assumption].
  destruct Hp as [[Hm Hs] Hout]. repeat split; cbn; try assumption; lia.
Qed.

Lemma recordSetIn_run (heap : Z -> Sample) (c : Z) (cycles : list (T * Fields F))
    (prec : aSubRecord) :
  1 <= c -> recordSetIn heap c prec -> recordSetIn heap c (run prec cycles).
Proof.
  intros Hc. revert prec.
  induction cycles as [|cy rest IH]; intros prec Hp; [assumption|].
  rewrite run_cons. now apply IH, recordSetIn_cycle.
Qed.

(** X4.  No cycle ever writes outside the allocated array: whatever the cycles
    after [RattleInit], the memory at every offset outside
    [0 .. maximumSamples - 1] is what it was before the array was
    allocated. *)
Theorem cycles_never_write_outside_the_array
    (heap : Z -> Sample) (prec0 : aSubRecord) (cycles : list (T * Fields F))
    (p : RecordData) :
  dpvt (run (snd (RattleInit heap prec0)) cycles) = Some p ->
  forall i, ~ (0 <= i < maximumSamples p) -> buffer p i = heap i.
Proof.
  intros Hd i Hi.
  pose proof (initCapacity_range prec0) as Hr.
  destruct (recordSetIn_run heap (initCapacity prec0) cycles _ ltac:(lia)
              (recordSetIn_init heap prec0) p Hd) as [[Hm _] Hout].
  apply Hout. rewrite <- Hm. exact Hi.
Qed.

(** ** The store as a sliding window *)

Lemma length_slots (a b : Z) : length (slots a b) = Z.to_nat (b + 1 - a).
Proof. unfold slots. now rewrite length_map, length_seq. Qed.

Lemma length_contents (p : RecordData) :
  length (contents p) = Z.to_nat (sampleCount p).
Proof. unfold contents. rewrite length_map, length_slots. f_equal. lia. Qed.

Lemma map_seq_from {A} (f : nat -> A) (k start len : nat) :
  map f (seq (k + start) len) = map (fun i => f (k + i)%nat) (seq start len).
Proof.
  revert start. induction len as [|len IH]; intros start; [reflexivity|].
  cbn [seq map]. f_equal.
  replace (S (k + start)) with (k + S start)%nat by lia. apply IH.
Qed.

Lemma skipn_slots (k : nat) (a b : Z) :
  skipn k (slots a b) = slots (a + Z.of_nat k) b.
Proof.
  unfold slots. rewrite skipn_map, skipn_seq.
  replace (Z.to_nat (b + 1 - (a + Z.of_nat k)))
    with (Z.to_nat (b + 1 - a) - k)%nat by lia.
  replace (0 + k)%nat with (k + 0)%nat by lia.
  rewrite map_seq_from. apply map_ext. intros i. lia.
Qed.

Lemma lastN_all {A} (n : nat) (l : list A) : (length l <= n)%nat -> lastN n l = l.
Proof. intros H. unfold lastN. now replace (length l - n)%nat with 0%nat by lia. Qed.

Lemma lastN_app {A} (n : nat) (l r : list A) :
  lastN n (lastN n l ++ r) = lastN n (l ++ r).
Proof.
  unfold lastN. rewrite !length_app, length_skipn.
  rewrite !skipn_app, length_skipn, skipn_skipn.
  f_equal; f_equal; lia.
Qed.

(** One measurement put in: the store holds the last [maximumSamples] of
    what it held before followed by the new one. *)
Lemma contents_insert (c : Z) (p : RecordData) (m : Sample) :
  1 <= c -> bounded c p ->
  contents (insert p m) = lastN (Z.to_nat c) (contents p ++ [m]).
Proof.
  intros Hc [Hm Hs].
  destruct (Z_lt_le_dec (sampleCount p) c) as [Hroom|Hfull].
  - rewrite contents_insert_room by lia.
    symmetry. apply lastN_all. rewrite length_app, length_contents. cbn. lia.
  - rewrite contents_insert_full by lia.
    unfold lastN. rewrite length_app, length_contents. cbn [length].
    replace (Z.to_nat (sampleCount p) + 1 - Z.to_nat c)%nat with 1%nat by lia.
    assert (Hlen : length (contents p) = Z.to_nat (sampleCount p))
      by apply length_contents.
    destruct (contents p) as [|s rest]; [cbn in Hlen; lia|reflexivity].
Qed.

(** With decimation factor 1 a raw sample is stored as it is, whatever
    is pending from a larger factor. *)
Lemma ingest_factor_one (p : RecordData) (now : T) (v : F) :
  0 <= decimateCount p ->
  ingest p 1 now v = insert (collecting p 0 fzero) {| time := now; value := v |}.
Proof.
  intros Hd. unfold ingest, decimate.
  destruct (decimateCount p <? 1) eqn:E1; cbn [decimateCount].
  - destruct (decimateCount p + 1 >=? 1) eqn:E2; [reflexivity|lia].
  - destruct (decimateCount p >=? 1) eqn:E2; [reflexivity|lia].
Qed.

(** X5.  Without decimation the store is a sliding window over the input:
    after any number of raw samples it holds, oldest first, the last
    [maximumSamples] of its former contents followed by the samples. *)
Theorem store_holds_the_latest_samples
    (c : Z) (samples : list (T * F)) (p : RecordData) :
  1 <= c -> bounded c p -> 0 <= decimateCount p ->
  contents (feed p 1 samples)
  = lastN (Z.to_nat c) (contents p ++ asSamples samples) /\
  sampleCount (feed p 1 samples)
  = Z.min c (sampleCount p + Z.of_nat (length samples)).
Proof.
  intros Hc. revert p.
  induction samples as [|s rest IH]; intros p Hb Hd.
  - cbn. rewrite app_nil_r. destruct Hb as [Hm Hs]. split; [|lia].
    symmetry. apply lastN_all. rewrite length_contents. lia.
  - cbn [feed fold_left]. fold (feed (ingest p 1 (fst s) (snd s)) 1 rest).
    assert (Hb' : bounded c (ingest p 1 (fst s) (snd s)))
      by now apply bounded_ingest.
    destruct (IH (ingest p 1 (fst s) (snd s)) Hb') as [Hcont Hcount].
    { rewrite ingest_factor_one by assumption.
      unfold insert. destruct (_ <? _); cbn; lia. }
    rewrite Hcont, Hcount. rewrite ingest_factor_one by assumption.
    assert (Hcoll : bounded c (collecting p 0 fzero))
      by (destruct Hb; split; assumption).
    split.
    + rewrite (contents_insert c) by assumption.
      change (contents (collecting p 0 fzero)) with (contents p).
      rewrite lastN_app. cbn [asSamples map]. now rewrite <- app_assoc.
    + rewrite sampleCount_insert. cbn [sampleCount maximumSamples collecting length].
      destruct Hb as [Hm Hs]. rewrite Hm.
      destruct (sampleCount p <? c) eqn:E; lia.
Qed.

(** ** Counting under decimation *)

(** X6.  With a constant factor [k] the store gains one measurement for every
    [k] raw samples (up to its capacity), and the pending count is what is
    left over. *)
Theorem decimation_counts_groups
    (c k : Z) (samples : list (T * F)) (p : RecordData) :
  1 <= k -> bounded c p -> 0 <= decimateCount p < k ->
  let n := decimateCount p + Z.of_nat (length samples) in
  sampleCount (feed p k samples) = Z.min c (sampleCount p + n / k) /\
  decimateCount (feed p k samples) = n mod k.
Proof.
  intros Hk. revert p.
  induction samples as [|s rest IH]; intros p Hb Hd n.
  - unfold n. cbn. rewrite Z.add_0_r, Z.div_small, Z.mod_small by lia.
    destruct Hb as [Hm Hs]. split; lia.
  - cbn [feed fold_left]. fold (feed (ingest p k (fst s) (snd s)) k rest).
    assert (Hb' : bounded c (ingest p k (fst s) (snd s)))
      by now apply bounded_ingest.
    assert (Hn : n = decimateCount p + 1 + Z.of_nat (length rest))
      by (unfold n; cbn [length]; lia).
    destruct (Z_lt_le_dec (decimateCount p + 1) k) as [Hbelow|Hreach].
    + destruct (IH (ingest p k (fst s) (snd s)) Hb') as [Hcount Hpend].
      { rewrite ingest_below by assumption. cbn. lia. }
      rewrite Hcount, Hpend. rewrite ingest_below by assumption.
      cbn [sampleCount decimateCount collecting]. rewrite Hn. split; reflexivity.
    + assert (Hq : decimateCount p + 1 = k) by lia.
      destruct (IH (ingest p k (fst s) (snd s)) Hb') as [Hcount Hpend].
      { rewrite ingest_reaches by assumption.
        unfold insert. destruct (_ <? _); cbn; lia. }
      rewrite Hcount, Hpend. rewrite ingest_reaches by assumption.
      rewrite sampleCount_insert.
      assert (Hdc : decimateCount
                      (insert (collecting p 0 fzero)
                        {| time := fst s;
                           value := if k =? 1 then snd s
                                    else fdiv (fadd (decimateTotal p) (snd s))
                                              (ofInt k) |}) = 0).
      { unfold insert. destruct (_ <? _); reflexivity. }
      rewrite Hdc. cbn [sampleCount maximumSamples collecting].
      replace n with (Z.of_nat (length rest) + 1 * k) by lia.
      rewrite Z.div_add, Z_mod_plus_full by lia.
      pose proof (Z.div_pos (Z.of_nat (length rest)) k ltac:(lia) ltac:(lia)).
      destruct Hb as [Hm Hs]. rewrite Hm. rewrite Z.add_0_l.
      split; [|reflexivity].
      destruct (sampleCount p <? c) eqn:E; lia.
Qed.

(** ** A cycle with a reset request *)

Lemma contents_empty (p : RecordData) : sampleCount p <= 0 -> contents p = [].
Proof. intros H. unfold contents. now rewrite slots_empty by lia. Qed.

(** X7.  A cycle that goes through with the reset flag set forgets the history
    and the pending decimation but still takes in its own sample: without
    decimation the store then holds that one sample, with a factor above 1
    it holds nothing and the sample is the first of a new group. *)
Theorem reset_cycle_starts_over (now : T) (prec : aSubRecord) (p : RecordData) :
  dpvt prec = Some p ->
  severityOf prec < epicsSevInvalid ->
  isNanOrInfinite (fld_a (fld prec)) = false ->
  fld_r (fld prec) = 1 ->
  1 <= maximumSamples p ->
  let prec' := snd (RattleProcess now prec) in
  exists q, dpvt prec' = Some q /\
    maximumSamples q = maximumSamples p /\
    (decimateFactorOf prec = 1 ->
       contents q = [{| time := now; value := fld_a (fld prec) |}] /\
       vala (val prec') = 1 /\ decimateCount q = 0) /\
    (1 < decimateFactorOf prec ->
       contents q = [] /\ vala (val prec') = 0 /\
       decimateCount q = 1 /\ decimateTotal q = fadd fzero (fld_a (fld prec))).
Proof.
  intros Hd Hsev Hfin Hr Hmax prec'.
  unfold prec', RattleProcess. rewrite Hd, Hfin, Hr.
  destruct (severityOf prec >=? epicsSevInvalid) eqn:E; [lia|].
  cbn [Z.eqb Pos.eqb snd dpvt val vala].
  eexists. split; [reflexivity|].
  split; [now rewrite maximumSamples_ingest|]. split.
  - intros ->. rewrite ingest_factor_one by (cbn; lia).
    rewrite contents_insert_room by (cbn; lia).
    rewrite contents_empty by (cbn; lia).
    rewrite sampleCount_insert. unfold insert. cbn.
    destruct (0 <? maximumSamples p) eqn:E0; [|lia]. repeat split.
  - intros Hk. rewrite ingest_below by (cbn; lia). cbn. repeat split.
Qed.

(** ** Finite history *)

Lemma Forall_lastN {A} (P : A -> Prop) (n : nat) (l : list A) :
  Forall P l -> Forall P (lastN n l).
Proof.
  intros H. unfold lastN.
  rewrite <- (firstn_skipn (length l - n) l) in H.
  now apply Forall_app in H.
Qed.

Lemma finiteStore_cycle (c : Z) (prec : aSubRecord) (cy : T * Fields F) :
  1 <= c ->
  ZERO2ONE_int (LONG_VALUE (ftl (ft prec)) (fld_l (snd cy)) 1) = 1 ->
  (forall p, dpvt prec = Some p -> finiteStore c p) ->
  forall q, dpvt (cycle prec cy) = Some q -> finiteStore c q.
Proof.
  intros Hc Hk Hp q. unfold cycle, RattleProcess. cbn [dpvt setFields].
  destruct (dpvt prec) as [p|] eqn:Hd; [|cbn; rewrite Hd; discriminate].
  specialize (Hp p eq_refl).
  destruct (_ >=? epicsSevInvalid); [cbn; rewrite Hd; now intros [= <-]|].
  destruct (isNanOrInfinite _) eqn:Hfin; [cbn; rewrite Hd; now intros [= <-]|].
  cbn [snd dpvt]. intros [= <-].
  unfold decimateFactorOf. cbn [ft fld setFields]. rewrite Hk.
  set (p1 := if fld_r (snd cy) =? 1 then reset p else p).
  assert (H1 : finiteStore c p1).
  { unfold p1. destruct (fld_r (snd cy) =? 1); [|assumption].
    destruct Hp as ([Hm Hs] & _ & _). repeat split; cbn; try assumption; try lia.
    constructor. }
  destruct H1 as (Hb & Hdc & Hall).
  rewrite ingest_factor_one by assumption.
  assert (Hcoll : bounded c (collecting p1 0 fzero))
    by (destruct Hb; split; assumption).
  split; [now apply bounded_insert|]. split.
  - unfold insert. destruct (_ <? _); cbn; lia.
  - rewrite (contents_insert c) by assumption.
    apply Forall_lastN, Forall_app. split; [exact Hall|].
    constructor; [exact Hfin|constructor].
Qed.

(** X8.  As long as every cycle runs with decimation factor 1, no NaN and no
    infinity ever gets into the history. *)
Theorem history_stays_finite_without_decimation
    (heap : Z -> Sample) (prec0 : aSubRecord) (cycles : list (T * Fields F))
    (p : RecordData) :
  Forall (fun cy => ZERO2ONE_int (LONG_VALUE (ftl (ft prec0)) (fld_l (snd cy)) 1) = 1)
         cycles ->
  dpvt (run (snd (RattleInit heap prec0)) cycles) = Some p ->
  Forall finiteSample (contents p).
Proof.
  intros Hk Hd.
  pose proof (initCapacity_range prec0) as Hr.
  set (c := initCapacity prec0) in *.
  assert (Hinit : ft (snd (RattleInit heap prec0)) = ft prec0 /\
                  forall q, dpvt (snd (RattleInit heap prec0)) = Some q ->
                            finiteStore c q).
  { split.
    - unfold RattleInit. now destruct (negb _).
    - intros q Hq. split; [now apply (recordBounded_init heap prec0)|].
      unfold RattleInit in Hq. destruct (negb _); cbn in Hq; [discriminate|].
      injection Hq as <-. cbn. split; [lia|]. constructor. }
  revert Hinit Hd. generalize (snd (RattleInit heap prec0)). clear heap.
  induction Hk as [|cy rest Hcy Hrest IH]; intros prec [Hft Hinv] Hd.
  - now apply Hinv.
  - rewrite run_cons in Hd. apply (IH (cycle prec cy)); [|exact Hd].
    split.
    + rewrite (proj1 (cycle_keeps_types prec cy)). exact Hft.
    + apply finiteStore_cycle; [lia| |exact Hinv]. now rewrite Hft.
Qed.

(** ** The samples a fit runs over *)

Lemma fold_step_size (p : RecordData) (t0 : T) (idx : list Z) (acc : Sums F) :
  actual_size (fold_left (step p t0) idx acc)
  = actual_size acc + Z.of_nat (length idx).
Proof.
  revert acc. induction idx as [|i rest IH]; intros acc; [cbn; lia|].
  cbn [fold_left length]. rewrite IH. cbn. lia.
Qed.

(** X10.  The summation loop runs, oldest first, over the newest
    [min (number, sampleCount)] stored measurements, and [actual_size] is
    their number. *)
Theorem fit_runs_over_the_newest_samples (p : RecordData) (number : Z) :
  0 <= sampleCount p -> 0 <= number ->
  map (buffer p) (slots (firstSlotOf p number) (lastSlotOf p))
  = lastN (Z.to_nat number) (contents p) /\
  actual_size (windowSums p number) = Z.min number (sampleCount p).
Proof.
  intros Hc Hn. split.
  - unfold lastN, contents. rewrite length_map, length_slots.
    rewrite skipn_map, skipn_slots. unfold lastSlotOf, firstSlotOf.
    do 2 f_equal. destruct (sampleCount p - number <? 0) eqn:E; lia.
  - unfold windowSums. rewrite fold_step_size, length_slots.
    unfold lastSlotOf, firstSlotOf. cbn [actual_size zeroSums].
    destruct (sampleCount p - number <? 0) eqn:E; lia.
Qed.

(** X11.  A fit over two or more points depends on the store only through the
    number of measurements and the samples in its window: measurements
    older than the window have no influence. *)
Theorem fit_ignores_samples_before_the_window (p q : RecordData) (number : Z) :
  2 <= number ->
  sampleCount p = sampleCount q ->
  (forall i, firstSlotOf p number <= i <= lastSlotOf p -> buffer p i = buffer q i) ->
  slopeIntersect p number = slopeIntersect q number.
Proof.
  intros Hn Hs Hb. rewrite !slopeIntersect_eq.
  destruct (number <? 1) eqn:E1; [lia|].
  destruct (number <? 2) eqn:E2; [lia|].
  f_equal. unfold windowSums, firstSlotOf, lastSlotOf in *. rewrite <- Hs.
  destruct (Z_lt_le_dec (sampleCount p) 1) as [Hempty|Hsome].
  - rewrite !slots_empty by (destruct (sampleCount p - number <? 0) eqn:E; lia).
    reflexivity.
  - rewrite <- (Hb (sampleCount p - 1))
      by (destruct (sampleCount p - number <? 0) eqn:E; lia).
    apply fold_step_ext. intros i Hi. apply in_slots in Hi. now apply Hb.
Qed.

(** ** Cycles and ingests *)

Lemma cycle_processed (prec : aSubRecord) (p : RecordData) (cy : T * Fields F) :
  dpvt prec = Some p ->
  processed (ft prec) cy = true ->
  let q := ingest (if fld_r (snd cy) =? 1 then reset p else p)
                  (fst (rawSample (ft prec) cy))
                  (fst cy) (fld_a (snd cy)) in
  dpvt (cycle prec cy) = Some q /\ vala (val (cycle prec cy)) = sampleCount q.
Proof.
  intros Hd Hp q. unfold processed in Hp. apply andb_true_iff in Hp.
  destruct Hp as [Hsev Hfin]. apply negb_true_iff in Hsev, Hfin.
  unfold cycle, RattleProcess, severityOf. cbn [dpvt setFields ft fld].
  rewrite Hd, Hsev, Hfin. cbn. split; reflexivity.
Qed.

Lemma cycle_not_processed (prec : aSubRecord) (cy : T * Fields F) :
  processed (ft prec) cy = false ->
  dpvt (cycle prec cy) = dpvt prec /\ val (cycle prec cy) = val prec.
Proof.
  intros Hp. unfold processed in Hp.
  unfold cycle, RattleProcess, severityOf. cbn [dpvt setFields ft fld].
  destruct (dpvt prec) eqn:Hd; [|cbn; rewrite Hd; now split].
  destruct (_ >=? epicsSevInvalid) eqn:E1; [cbn; rewrite Hd; now split|].
  destruct (isNanOrInfinite _) eqn:E2; [cbn; rewrite Hd; now split|].
  cbn in Hp. discriminate.
Qed.

(** X15.  Cycles that go through without a reset request act on the store as
    the ingests of their raw samples, one after the other, and VALA is the
    number of measurements then stored. *)
Theorem processed_cycles_are_ingests
    (cycles : list (T * Fields F)) (prec : aSubRecord) (p : RecordData) :
  dpvt prec = Some p ->
  Forall (fun cy => processed (ft prec) cy = true /\ fld_r (snd cy) <> 1) cycles ->
  dpvt (run prec cycles) = Some (feedWith p (map (rawSample (ft prec)) cycles)) /\
  (cycles <> [] ->
   vala (val (run prec cycles))
   = sampleCount (feedWith p (map (rawSample (ft prec)) cycles))).
Proof.
  intros Hd Hall. revert p Hd.
  induction cycles as [|cy rest IH] using rev_ind; intros p Hd.
  - split; [exact Hd|]. intros H. now destruct H.
  - apply Forall_app in Hall. destruct Hall as [Hrest Hcy].
    inversion Hcy as [|? ? [Hproc Hr] _]; subst.
    destruct (IH Hrest p Hd) as [Hrun _].
    rewrite run_snoc, map_app. unfold feedWith at 1 2. rewrite fold_left_app.
    fold (feedWith p (map (rawSample (ft prec)) rest)).
    cbn [map fold_left].
    destruct (cycle_processed (run prec rest) _ cy Hrun) as [Hq Hv].
    { now rewrite (proj1 (run_keeps_types rest prec)). }
    rewrite (proj1 (run_keeps_types rest prec)) in Hq, Hv.
    destruct (fld_r (snd cy) =? 1) eqn:E; [apply Z.eqb_eq in E; contradiction|].
    split; [exact Hq|]. intros _. exact Hv.
Qed.

Lemma cycle_keeps_sameState (a b : aSubRecord) (cy : T * Fields F) :
  sameState a b -> sameState (cycle a cy) (cycle b cy).
Proof.
  intros (Hft & Hd & Hv). destruct a as [fa la pa da va], b as [fb lb pb db vb].
  cbn in Hft, Hd, Hv. subst fb db vb.
  unfold sameState, cycle, RattleProcess, severityOf, setFields, numberSamples,
    thresholds, decimateFactorOf, rateOfChangeFactorOf, timeEstimateFactorOf.
  cbn [dpvt ft fld val pact fst snd].
  destruct da as [p|]; [|repeat split].
  destruct (_ >=? epicsSevInvalid); [repeat split|].
  destruct (isNanOrInfinite _); repeat split.
Qed.

(** X16.  Cycles that are skipped (severity) or rejected (NaN, infinity) leave
    no trace: the store and the outputs after a sequence of cycles are
    those of the same sequence with these cycles taken out. *)
Theorem skipped_cycles_leave_no_trace
    (cycles : list (T * Fields F)) (prec : aSubRecord) :
  dpvt (run prec cycles) = dpvt (run prec (filter (processed (ft prec)) cycles)) /\
  val (run prec cycles) = val (run prec (filter (processed (ft prec)) cycles)).
Proof.
  assert (Hgen : forall cs a b, sameState a b ->
            sameState (run a cs) (run b (filter (processed (ft a)) cs))).
  { induction cs as [|cy rest IH]; intros a b Hab; [exact Hab|].
    cbn [filter]. rewrite run_cons.
    assert (Hfta : ft (cycle a cy) = ft a) by apply cycle_keeps_types.
    destruct (processed (ft a) cy) eqn:E.
    - rewrite run_cons. rewrite <- Hfta. apply IH.
      now apply cycle_keeps_sameState.
    - rewrite <- Hfta. apply IH.
      destruct (cycle_not_processed a cy E) as [Hd Hv].
      destruct Hab as (Hft & Hdab & Hvab).
      repeat split; congruence. }
  destruct (Hgen cycles prec prec) as (_ & Hd & Hv); [repeat split|].
  split; assumption.
Qed.

(** ** Time differences *)

Lemma fold_step_same (p q : RecordData) (tp tq : T) (idx : list Z) (acc : Sums F) :
  (forall i, In i idx ->
     epicsTimeDiffInSeconds (time (buffer q i)) tq
     = epicsTimeDiffInSeconds (time (buffer p i)) tp /\
     value (buffer q i) = value (buffer p i)) ->
  fold_left (step q tq) idx acc = fold_left (step p tp) idx acc.
Proof.
  revert acc. induction idx as [|i rest IH]; intros acc Hidx; [reflexivity|].
  cbn [fold_left]. destruct (Hidx i (or_introl eq_refl)) as [Ho Hv].
  unfold step at 2 4. rewrite Ho, Hv. apply IH. intros k Hk. apply Hidx. now right.
Qed.

(** The fit sees the time stamps only through their differences to the
    newest one. *)
Lemma fit_sees_time_differences_only (p q : RecordData) (number : Z) :
  2 <= number ->
  sampleCount p = sampleCount q ->
  (forall i, firstSlotOf p number <= i <= lastSlotOf p ->
     epicsTimeDiffInSeconds (time (buffer q i)) (time (buffer q (lastSlotOf q)))
     = epicsTimeDiffInSeconds (time (buffer p i)) (time (buffer p (lastSlotOf p))) /\
     value (buffer q i) = value (buffer p i)) ->
  slopeIntersect q number = slopeIntersect p number.
Proof.
  intros Hn Hc Hw. rewrite !slopeIntersect_eq.
  destruct (number <? 1) eqn:E1; [lia|].
  destruct (number <? 2) eqn:E2; [lia|].
  f_equal. unfold windowSums. unfold firstSlotOf at 1. unfold lastSlotOf at 2.
  rewrite <- Hc. fold (firstSlotOf p number). fold (lastSlotOf p).
  apply fold_step_same. intros i Hi. apply in_slots in Hi. now apply Hw.
Qed.

End RecordProperties.

(** * The fit as a least-squares line, and shifts of time *)

Section LeastSquares.

Open Scope Q_scope.

(** ** Sums *)

Lemma sumQ_squares_nonneg (f : Z -> Q) (idx : list Z) :
  0 <= sumQ (map (fun i => f i * f i) idx).
Proof.
  induction idx as [|i rest IH]; [apply Qle_refl|].
  cbn [map]. rewrite sumQ_cons. pose proof (square_nonneg (f i)). lra.
Qed.

Lemma spread_pos (a : Q) (xs : list Q) :
  Exists (fun x => ~ a == x) xs -> 0 < spread a xs.
Proof.
  induction 1 as [x rest Hx|x rest Hex IH]; rewrite spread_cons.
  - pose proof (spread_nonneg a rest).
    assert (0 < (a - x) * (a - x)); [|lra].
    apply square_pos. intros H0. apply Hx. lra.
  - pose proof (square_nonneg (a - x)). lra.
Qed.

(** Abscissae that are not all the same make the denominator positive. *)
Lemma deltaOf_pos_of_two (xs : list Q) (a b : Q) :
  In a xs -> In b xs -> ~ a == b -> 0 < deltaOf xs.
Proof.
  induction xs as [|h t IH]; intros Ha Hb Hab; [destruct Ha|].
  rewrite deltaOf_cons.
  pose proof (deltaOf_nonneg t) as Hd. pose proof (spread_nonneg h t) as Hs.
  destruct (Forall_Exists_dec (fun x => h == x) (Qeq_dec h) t) as [Hall|Hex].
  - rewrite Forall_forall in Hall.
    assert (Hh : forall z, In z (h :: t) -> h == z).
    { intros z [<-|Hz]; [reflexivity|now apply Hall]. }
    exfalso. apply Hab. rewrite <- (Hh a Ha), <- (Hh b Hb). reflexivity.
  - pose proof (spread_pos h t Hex). lra.
Qed.

(** The squared error of any line against that of a reference line. *)
Lemma squared_error_identity (x y : Z -> Q) (s c s' c' : Q) (idx : list Z) :
  sumQ (map (fun i => (y i - (c' + s' * x i)) * (y i - (c' + s' * x i))) idx)
  == sumQ (map (fun i => (y i - (c + s * x i)) * (y i - (c + s * x i))) idx)
     + sumQ (map (fun i => ((c' - c) + (s' - s) * x i)
                           * ((c' - c) + (s' - s) * x i)) idx)
     - 2 * ((c' - c) * sumQ (map (fun i => y i - (c + s * x i)) idx)
            + (s' - s) * sumQ (map (fun i => x i * (y i - (c + s * x i))) idx)).
Proof.
  induction idx as [|i rest IH]; [cbn; ring|].
  cbn [map]. rewrite !sumQ_cons, IH. ring.
Qed.

(** The residual sums in terms of the four sums of the loop. *)
Lemma residual_sums (x y : Z -> Q) (s c : Q) (idx : list Z) :
  sumQ (map (fun i => y i - (c + s * x i)) idx)
  == sumQ (map y idx) - inject_Z (Z.of_nat (length idx)) * c
     - s * sumQ (map x idx) /\
  sumQ (map (fun i => x i * (y i - (c + s * x i))) idx)
  == sumQ (map (fun i => x i * y i) idx) - c * sumQ (map x idx)
     - s * sumQ (map (fun i => x i * x i) idx).
Proof.
  induction idx as [|i rest [IH0 IH1]]; [cbn; split; ring|].
  cbn [map length]. rewrite !sumQ_cons, inject_Z_succ, IH0, IH1. split; ring.
Qed.

(** ** Least squares *)

(** The quotients of the fit solve the two normal equations. *)
Lemma normal_equations (n sx sy sxx sxy s c : Q) :
  0 < n * sxx - sx * sx ->
  s == (n * sxy - sx * sy) / (n * sxx - sx * sx) ->
  c == (sy * sxx - sx * sxy) / (n * sxx - sx * sx) ->
  sy - n * c - s * sx == 0 /\ sxy - c * sx - s * sxx == 0.
Proof. intros Hd -> ->. split; field; lra. Qed.

(** X12.  In binary64, when the window holds two samples with different
    time stamps and no operation of the fit rounds, the slope and the
    intercept returned are finite and are those of the least-squares line
    of the exact values over the exact time offsets: the residuals sum to
    zero, they are orthogonal to the time offsets, and no other line has a
    smaller sum of squared residuals over the window. *)
Theorem fit_minimises_squared_error
    (p : RecordData float epicsTimeStamp) (number : Z) (i j : Z)
    (slope' intercept' : Q) :
  (2 <= number)%Z ->
  (firstSlotOf p number <= i <= lastSlotOf p)%Z ->
  (firstSlotOf p number <= j <= lastSlotOf p)%Z ->
  ~ secondsBetween (time (buffer p i)) (time (buffer p j)) == 0 ->
  noRounding p number = true ->
  let idx := slots (firstSlotOf p number) (lastSlotOf p) in
  let slope := valueQ (fst (slopeIntersect p number)) in
  let intercept := valueQ (snd (slopeIntersect p number)) in
  represents (fst (slopeIntersect p number)) slope /\
  represents (snd (slopeIntersect p number)) intercept /\
  sumQ (map (residual p slope intercept) idx) == 0 /\
  sumQ (map (fun k => secondsBetween (time (buffer p k))
                                     (time (buffer p (lastSlotOf p)))
                      * residual p slope intercept k) idx) == 0 /\
  squaredError p number slope intercept
  <= squaredError p number slope' intercept'.
Proof.
  intros Hn Hi Hj Hij Hexact idx slope intercept.
  destruct (exact_fit p number Hn Hexact) as (Hs & Hc). cbv zeta in Hs, Hc.
  fold idx in Hs, Hc.
  set (x := fun k => secondsBetween (time (buffer p k))
                                    (time (buffer p (lastSlotOf p)))) in *.
  set (y := fun k => valueQ (value (buffer p k))) in *.
  set (n := inject_Z (Z.of_nat (length idx))) in *.
  set (sx := sumQ (map x idx)) in *.
  set (sy := sumQ (map y idx)) in *.
  set (sxx := sumQ (map (fun k => x k * x k) idx)) in *.
  set (sxy := sumQ (map (fun k => x k * y k) idx)) in *.
  assert (Hdelta : 0 < n * sxx - sx * sx).
  { assert (Heq : n * sxx - sx * sx == deltaOf (map x idx)).
    { unfold deltaOf, sumSquares, n, sxx, sx. rewrite length_map, map_map. ring. }
    rewrite Heq. apply (deltaOf_pos_of_two _ (x i) (x j)).
    - apply in_map, in_slots, Hi.
    - apply in_map, in_slots, Hj.
    - unfold x. intros Hsame. apply Hij.
      rewrite <- (secondsBetween_diff _ _ (time (buffer p (lastSlotOf p)))). lra. }
  pose proof (represents_value _ _ Hs) as Vs. fold slope in Vs.
  pose proof (represents_value _ _ Hc) as Vc. fold intercept in Vc.
  destruct (normal_equations n sx sy sxx sxy slope intercept Hdelta Vs Vc)
    as (N0 & N1).
  destruct (residual_sums x y slope intercept idx) as (S0 & S1).
  assert (R0 : sumQ (map (fun k => y k - (intercept + slope * x k)) idx) == 0)
    by (rewrite S0; exact N0).
  assert (R1 : sumQ (map (fun k => x k * (y k - (intercept + slope * x k))) idx)
               == 0)
    by (rewrite S1; exact N1).
  split; [apply (represents_proper _ _ _ Hs); symmetry; exact Vs|].
  split; [apply (represents_proper _ _ _ Hc); symmetry; exact Vc|].
  split; [exact R0|]. split; [exact R1|].
  pose proof (squared_error_identity x y slope intercept slope' intercept' idx)
    as Hid.
  rewrite R0, R1 in Hid.
  pose proof (sumQ_squares_nonneg
                (fun k => (intercept' - intercept) + (slope' - slope) * x k) idx)
    as Hsq.
  cbv beta in Hsq.
  unfold squaredError. fold idx.
  change (fun k => residual p slope' intercept' k * residual p slope' intercept' k)
    with (fun k => (y k - (intercept' + slope' * x k))
                   * (y k - (intercept' + slope' * x k))).
  change (fun k => residual p slope intercept k * residual p slope intercept k)
    with (fun k => (y k - (intercept + slope * x k))
                   * (y k - (intercept + slope * x k))).
  rewrite Hid. lra.
Qed.

(** ** Shifting the time stamps *)

(** X14.  In binary64 the fit does not depend on the origin of time: the
    time difference is computed from the difference of the two stamps in
    nanoseconds, so two stores with the same number of measurements whose
    windows hold the same values at time stamps shifted by a constant
    number of nanoseconds return the same slope and the same intercept,
    bit for bit. *)
Theorem fit_unchanged_by_time_shift
    (p q : RecordData float epicsTimeStamp) (number : Z) (d : Z) :
  (2 <= number)%Z ->
  sampleCount p = sampleCount q ->
  (forall i, (firstSlotOf p number <= i <= lastSlotOf p)%Z ->
     nanoseconds (time (buffer q i)) = (nanoseconds (time (buffer p i)) + d)%Z /\
     value (buffer q i) = value (buffer p i)) ->
  slopeIntersect q number = slopeIntersect p number.
Proof.
  intros Hn Hc Hw.
  destruct (Z_lt_le_dec (sampleCount p) 1) as [Hempty|Hsome].
  - rewrite !slopeIntersect_eq.
    destruct (number <? 1)%Z eqn:E1; [lia|].
    destruct (number <? 2)%Z eqn:E2; [lia|].
    unfold windowSums, firstSlotOf, lastSlotOf. rewrite <- Hc.
    rewrite !slots_empty by (destruct (sampleCount p - number <? 0)%Z eqn:E; lia).
    reflexivity.
  - apply fit_sees_time_differences_only; [assumption|assumption|].
    intros i Hi. destruct (Hw i Hi) as [Hti Hvi]. split; [|exact Hvi].
    destruct (Hw (lastSlotOf p)) as [Ht0 _].
    { unfold firstSlotOf, lastSlotOf in *.
      destruct (sampleCount p - number <? 0)%Z eqn:E; lia. }
    replace (lastSlotOf q) with (lastSlotOf p) by (unfold lastSlotOf; lia).
    unfold nanoseconds in Hti, Ht0.
    cbn [epicsTimeDiffInSeconds Binary64]. do 2 f_equal. lia.
Qed.

End LeastSquares.

(** * The further properties at concrete inputs *)

Lemma failed_init_disables_record_witness :
  let dead := run (snd (RattleInit markedHeap badRecord64)) tenCycles in
  dpvt dead = None /\ pact dead = 1 /\ val dead = noOutputs /\
  fst (RattleProcess (tsec 10) (setFields dead (fields64 1%float 0 1 0))) = -1.
Proof.
  intros dead.
  destruct (failed_init_disables_record markedHeap badRecord64 tenCycles)
    as (Hd & Hp & Hv & Hrefused); [reflexivity|].
  split; [exact Hd|]. split; [exact Hp|]. split; [exact Hv|].
  fold dead in Hrefused. now rewrite Hrefused.
Defined.

Lemma window_sizes_are_clamped_to_capacity_witness :
  let prec := setFields full64 (fields64 1%float 0 1 0) in
  numberSamples prec (maximumSamples (storeOf full64)) 0 = 5 /\
  5 <= maximumSamples (storeOf full64).
Proof.
  intros prec.
  destruct (window_sizes_are_clamped_to_capacity
              (heapOf (sample64 0 0%float)) blank64 tenCycles (storeOf full64))
    as (Hcovers & Hclamp); [vm_compute; reflexivity|].
  destruct (Hclamp prec 0%nat) as (_ & Hsame & _ & _).
  split; [apply Hsame; vm_compute; split; discriminate|].
  apply Hcovers; [now left|lia].
Defined.

Lemma cycles_never_write_outside_the_array_witness :
  let p := storeOf (run (snd (RattleInit markedHeap blank64)) twelveCycles) in
  sampleCount p = 10 /\
  buffer p (-1) = markedHeap (-1) /\ buffer p 10 = markedHeap 10.
Proof.
  intros p. split; [vm_compute; reflexivity|].
  assert (Hmax : maximumSamples p = 10) by (vm_compute; reflexivity).
  split;
    apply (cycles_never_write_outside_the_array markedHeap blank64 twelveCycles p);
    try (vm_compute; reflexivity); rewrite Hmax; lia.
Defined.

Lemma store_holds_the_latest_samples_witness :
  map value (contents (feed empty64 1 twelveSamples))
  = map Z2F [4; 6; 8; 10; 12; 14; 16; 18; 20; 22] /\
  sampleCount (feed empty64 1 twelveSamples) = 10.
Proof.
  destruct (store_holds_the_latest_samples 10 twelveSamples empty64)
    as (Hcontents & Hcount); [lia|vm_compute; repeat split; discriminate|cbn; lia|].
  split; [rewrite Hcontents|rewrite Hcount]; vm_compute; reflexivity.
Defined.

Lemma decimation_counts_groups_witness :
  sampleCount (feed empty64 3 (firstn 7 twelveSamples)) = 2 /\
  decimateCount (feed empty64 3 (firstn 7 twelveSamples)) = 1.
Proof.
  destruct (decimation_counts_groups 10 3 (firstn 7 twelveSamples) empty64)
    as (Hcount & Hpending); [lia|vm_compute; repeat split; discriminate|cbn; lia|].
  split; [rewrite Hcount|rewrite Hpending]; vm_compute; reflexivity.
Defined.

Lemma reset_cycle_starts_over_witness :
  exists q, dpvt (snd (RattleProcess (tsec 10) resetValid64)) = Some q /\
    contents q = [sample64 10 20%float] /\
    vala (val (snd (RattleProcess (tsec 10) resetValid64))) = 1.
Proof.
  destruct (reset_cycle_starts_over (tsec 10) resetValid64 (storeOf resetValid64))
    as (q & Hq & _ & Hone & _);
    [vm_compute; reflexivity|vm_compute; reflexivity|vm_compute; reflexivity
    |reflexivity|vm_compute; discriminate|].
  destruct Hone as (Hcontents & Hvala & _); [vm_compute; reflexivity|].
  exists q. split; [exact Hq|]. split; [exact Hcontents|exact Hvala].
Defined.

Lemma history_stays_finite_without_decimation_witness :
  Forall finiteSample (contents (storeOf full64)).
Proof.
  apply (history_stays_finite_without_decimation
           (heapOf (sample64 0 0%float)) blank64 tenCycles (storeOf full64));
    [|vm_compute; reflexivity].
  unfold tenCycles. apply Forall_forall. intros cy Hcy.
  apply in_map_iff in Hcy. destruct Hcy as [i [<- _]]. reflexivity.
Defined.

Lemma fit_runs_over_the_newest_samples_witness :
  map value (map (buffer (storeOf full64)) (slots 5 9))
  = map Z2F [10; 12; 14; 16; 18] /\
  actual_size (windowSums (storeOf full64) 5) = 5.
Proof.
  destruct (fit_runs_over_the_newest_samples (storeOf full64) 5)
    as (Hwindow & Hsize); [vm_compute; discriminate|lia|].
  split; [|rewrite Hsize; vm_compute; reflexivity].
  change (slots 5 9)
    with (slots (firstSlotOf (storeOf full64) 5) (lastSlotOf (storeOf full64))).
  rewrite Hwindow. vm_compute. reflexivity.
Defined.

Lemma fit_ignores_samples_before_the_window_witness :
  slopeIntersect alteredOldest64 5 = slopeIntersect (storeOf full64) 5 /\
  buffer alteredOldest64 0 <> buffer (storeOf full64) 0.
Proof.
  split.
  - symmetry.
    apply (fit_ignores_samples_before_the_window (storeOf full64) alteredOldest64 5);
      [lia|vm_compute; reflexivity|].
    intros i Hi. change (5 <= i <= 9) in Hi. unfold alteredOldest64, store.
    cbn [buffer]. destruct (i =? 0) eqn:E; [lia|reflexivity].
  - intros H. apply (f_equal (fun s => PrimFloat.eqb (value s) 1000%float)) in H.
    vm_compute in H. discriminate.
Defined.

Lemma fit_minimises_squared_error_witness :
  slopeIntersect bumpy64 3 = (0%float, 1%float) /\
  (squaredError bumpy64 3 0 1 == 6)%Q /\
  (squaredError bumpy64 3 (valueQ (fst (slopeIntersect bumpy64 3)))
                (valueQ (snd (slopeIntersect bumpy64 3)))
   <= squaredError bumpy64 3 1 0)%Q.
Proof.
  destruct (fit_minimises_squared_error bumpy64 3 0 1 1%Q 0%Q)
    as (_ & _ & _ & _ & Hmin);
    [lia|vm_compute; split; discriminate|vm_compute; split; discriminate
    |vm_compute; discriminate|vm_compute; reflexivity|].
  split; [vm_compute; reflexivity|]. split; [vm_compute; reflexivity|exact Hmin].
Defined.

Lemma fit_unchanged_by_time_shift_witness :
  slopeIntersect shifted64 5 = slopeIntersect ramp64 5 /\
  slopeIntersect ramp64 5 = (2%float, 18%float) /\
  time (buffer shifted64 9) <> time (buffer ramp64 9).
Proof.
  split; [|split].
  - apply (fit_unchanged_by_time_shift ramp64 shifted64 5 99500000000);
      [lia|reflexivity|].
    intros i Hi. unfold shifted64, ramp64, sample64, tsec, nanoseconds.
    cbn [buffer time value secPastEpoch nsec]. split; [lia|reflexivity].
  - vm_compute. reflexivity.
  - vm_compute. discriminate.
Defined.


Lemma processed_cycles_are_ingests_witness :
  dpvt full64 = Some (feedWith empty64 (map (rawSample okTypes) tenCycles)) /\
  vala (val full64) = 10.
Proof.
  destruct (processed_cycles_are_ingests tenCycles init64 empty64)
    as (Hstore & Hvala); [reflexivity| |].
  - vm_compute. repeat (constructor; [split; [reflexivity|discriminate]|]).
    constructor.
  - split; [exact Hstore|].
    unfold full64. rewrite Hvala by discriminate. vm_compute. reflexivity.
Defined.

(** Under decimation the running sum of finite inputs can overflow: two
    inputs of 1e308 with factor 2 store an infinite measurement. *)
Example decimated_sum_can_overflow :
  let big := 0x1.1ccf385ebc8ap+1023%float in
  isNanOrInfinite big = false /\
  map value (contents (feed empty64 2 [(tsec 1, big); (tsec 2, big)]))
  = [PrimFloat.infinity].
Proof. vm_compute. split; reflexivity. Qed.

(** * The fit in binary64 before two measurements are stored *)

Lemma mul_zero_l (w : float) : zeroOrNan (PrimFloat.mul 0 w).
Proof.
  unfold zeroOrNan.
  destruct (Prim2SF w) as [s|s| |s m e] eqn:E.
  - destruct s; [right; left|left];
      apply Prim2SF_inj; rewrite mul_spec, E; reflexivity.
  - right; right. apply Prim2SF_inj. rewrite mul_spec, E. reflexivity.
  - right; right. apply Prim2SF_inj. rewrite mul_spec, E. reflexivity.
  - destruct s; [right; left|left];
      apply Prim2SF_inj; rewrite mul_spec, E; reflexivity.
Qed.

Lemma mul_zero_r (w : float) : zeroOrNan (PrimFloat.mul w 0).
Proof.
  unfold zeroOrNan.
  destruct (Prim2SF w) as [s|s| |s m e] eqn:E.
  - destruct s; [right; left|left];
      apply Prim2SF_inj; rewrite mul_spec, E; reflexivity.
  - right; right. apply Prim2SF_inj. rewrite mul_spec, E. reflexivity.
  - right; right. apply Prim2SF_inj. rewrite mul_spec, E. reflexivity.
  - destruct s; [right; left|left];
      apply Prim2SF_inj; rewrite mul_spec, E; reflexivity.
Qed.

Lemma mul_nan_l (w : float) : PrimFloat.mul PrimFloat.nan w = PrimFloat.nan.
Proof. apply Prim2SF_inj. rewrite mul_spec. reflexivity. Qed.

Lemma sub_nan_r (w : float) : PrimFloat.sub w PrimFloat.nan = PrimFloat.nan.
Proof.
  apply Prim2SF_inj. rewrite sub_spec.
  destruct (Prim2SF w) as [s|s| |s m e]; reflexivity.
Qed.

Lemma div_nan_r (w : float) : PrimFloat.div w PrimFloat.nan = PrimFloat.nan.
Proof.
  apply Prim2SF_inj. rewrite div_spec.
  destruct (Prim2SF w) as [s|s| |s m e]; reflexivity.
Qed.

Lemma div_nan_l (w : float) : PrimFloat.div PrimFloat.nan w = PrimFloat.nan.
Proof. apply Prim2SF_inj. rewrite div_spec. reflexivity. Qed.

(** With exactly one measurement stored, a fit over two or more points is
    0/0 whatever the measurement. *)
Lemma fit_of_single_sample_is_nan
    (p : RecordData float epicsTimeStamp) (number : Z) :
  sampleCount p = 1 -> 2 <= number ->
  slopeIntersect p number = (PrimFloat.nan, PrimFloat.nan).
Proof.
  intros Hc Hn. rewrite slopeIntersect_eq.
  destruct (number <? 1) eqn:E1; [lia|].
  destruct (number <? 2) eqn:E2; [lia|].
  unfold windowSums, firstSlotOf, lastSlotOf. rewrite Hc.
  destruct (1 - number <? 0) eqn:E3; [|lia].
  change (1 - 1) with 0. change (slots 0 0) with [0]. cbn [fold_left].
  unfold step. destruct (buffer p 0) as [[sec ns] v].
  cbn [time value epicsTimeDiffInSeconds Binary64 secPastEpoch nsec].
  rewrite !Z.sub_diag. cbn [Z.mul Z.add].
  unfold quotients, accumulate, zeroSums.
  cbn [x_sum y_sum xx_sum xy_sum actual_size fadd fsub fmul fdiv ofInt fzero
       Binary64].
  change (Z2F 0 * 0x1.12e0be826d695p-30)%float with 0%float.
  change (0 + 0)%float with 0%float.
  change (0 + 0 * 0)%float with 0%float.
  change (Z2F (0 + 1)) with 1%float.
  change (1 * 0 - 0 * 0)%float with 0%float.
  set (w := (0 + v)%float).
  destruct (mul_zero_l v) as [H1|[H1|H1]];
    destruct (mul_zero_l w) as [H2|[H2|H2]];
    destruct (mul_zero_r w) as [H3|[H3|H3]];
    rewrite H1, H2, H3; vm_compute; reflexivity.
Qed.

(** X17.  In binary64, as long as fewer than two measurements are stored after
    a cycle that went through, all four rates and all four time estimates
    it writes are NaN. *)
Theorem outputs_are_nan_before_two_samples
    (now : epicsTimeStamp) (prec : aSubRecord float epicsTimeStamp)
    (p : RecordData float epicsTimeStamp) :
  dpvt prec = Some p ->
  severityOf prec < epicsSevInvalid ->
  isNanOrInfinite (fld_a (fld prec)) = false ->
  let prec' := snd (RattleProcess now prec) in
  vala (val prec') <= 1 ->
  forall j, rateOut (val prec') j = PrimFloat.nan /\
            etaOut (val prec') j = PrimFloat.nan.
Proof.
  intros Hd Hsev Hfin prec'. unfold prec', RattleProcess. rewrite Hd, Hfin.
  destruct (severityOf prec >=? epicsSevInvalid) eqn:E;
    [apply Z.geb_le, Z.le_ngt in E; contradiction|].
  cbn [snd val vala].
  set (q := ingest _ _ _ _). intros Hcount j.
  assert (Hfit : forall k, slopeIntersect q (numberSamples prec (maximumSamples p) k)
                           = (PrimFloat.nan, PrimFloat.nan)).
  { intros k.
    assert (Hk : 2 <= numberSamples prec (maximumSamples p) k).
    { unfold numberSamples, LIMIT, MAX.
      destruct k as [|[|[|k]]]; destruct (2 >=? _) eqn:E2; lia. }
    destruct (Z.eq_dec (sampleCount q) 1) as [H1|H1].
    - now apply fit_of_single_sample_is_nan.
    - apply fit_on_empty_store_is_nan; lia. }
  assert (Hest : forall k thr rF tF,
            estimate q (numberSamples prec (maximumSamples p) k) thr rF tF
            = (PrimFloat.nan, PrimFloat.nan)).
  { intros k thr rF tF. unfold estimate. rewrite Hfit.
    cbn [fmul fdiv fsub Binary64].
    now rewrite mul_nan_l, sub_nan_r, div_nan_r, div_nan_l. }
  destruct j as [|[|[|j]]]; cbn [rateOut etaOut valb valc vald vale valf valg valh vali];
    rewrite Hest; split; reflexivity.
Qed.

Lemma outputs_are_nan_before_two_samples_witness :
  let prec := setFields init64 (fields64 7%float 0 1 0) in
  let prec' := snd (RattleProcess (tsec 0) prec) in
  vala (val prec') = 1 /\
  rateOut (val prec') 0 = PrimFloat.nan /\ etaOut (val prec') 0 = PrimFloat.nan.
Proof.
  intros prec prec'. split; [vm_compute; reflexivity|].
  apply (outputs_are_nan_before_two_samples (tsec 0) prec (storeOf prec));
    [reflexivity|vm_compute; reflexivity|vm_compute; reflexivity
    |vm_compute; discriminate].
Defined.

Lemma init_fails_exactly_on_a_type_report_witness :
  initReport badTypes
  = Some {| reportField := "FTB"; reportActual := "DOUBLE";
            reportExpected := "LONG" |}%string /\
  fst (RattleInit markedHeap badRecord64) = -1 /\
  pact (snd (RattleInit markedHeap badRecord64)) = 1.
Proof.
  split; [reflexivity|].
  destruct (init_fails_exactly_on_a_type_report markedHeap badRecord64)
    as (_ & Hreport).
  destruct (Hreport _ eq_refl) as (Hstatus & Hpact & _ & _).
  split; [exact Hstatus|exact Hpact].
Defined.
